(** * Wash-Connect bulk scraper: batch planning and the two-phase pipeline

    A shallow embedding of [bulk_scraper.py].

    Modelling conventions.
    - Python [int] is [Z].  Python [float] is modelled by the exact rational
      it approximates ([Q]): [a / b] is the exact quotient, [round] rounds
      the exact quotient to the nearest integer with ties to the even one,
      [math.ceil] is the exact ceiling.  For the integer results of
      [round] and [math.ceil] this agrees with IEEE doubles as long as the
      operands stay below 2^52, far beyond any list length the program
      can hold.
    - An exception that leaves a function is a [Raise] result.
    - Sets of codes ([Set[str]]) are [gset string]; insertion-ordered
      dictionaries [Dict[str, str]] are association lists with unique
      keys, updated in place or appended to, like a Python [dict].
    - The outside world (network, event-loop clock, wall clock, outcome of
      file writes) is an oracle consulted through a counter that advances
      at every consultation; what the program does to the world (requests,
      file writes, sleeps, warnings and errors logged, parser calls) is
      recorded in a trace.  Info and debug log lines are left out.
    - [asyncio.gather] runs the requests of a batch in task order; the
      requests are independent GETs, so the order does not matter to what
      is proved.
    - [while True] is cut after [n] cycles; statements about the polling
      phase hold for every [n].  [KeyboardInterrupt] is not modelled.
    - Paths are kept apart by construction: a location artifact is known by
      its code, a status artifact by code, identifier and timestamp. *)

From Stdlib Require Import ZArith QArith Qround Lia Ascii String.
From Stdlib Require Import DecimalString DecimalN DecimalFacts.
From stdpp Require Import gmap strings list.

Local Open Scope Z_scope.

(** ** Exceptions and results *)

Inductive exn : Type :=
| ZeroDivisionError
| KeyError
| TypeError
| AttributeError.

Inductive result (A : Type) : Type :=
| Ok (a : A)
| Raise (e : exn).
Arguments Ok {A} a.
Arguments Raise {A} e.

Definition rbind {A B : Type} (r : result A) (k : A -> result B) : result B :=
  match r with
  | Ok a => k a
  | Raise e => Raise e
  end.

Declare Scope res_scope.
Delimit Scope res_scope with res.
Notation "'let?' x ':=' r 'in' k" := (rbind r (fun x => k))
  (at level 10, x pattern, r at level 100, k at level 200) : res_scope.

(** ** Python arithmetic used by the planner *)

Module Py.

(** [a / b] on two ints: true division, [ZeroDivisionError] when [b = 0]. *)
Definition truediv (a b : Z) : result Q :=
  if b =? 0 then Raise ZeroDivisionError
  else Ok (inject_Z a / inject_Z b)%Q.

(** [round(x)] with one argument: nearest integer, ties to even. *)
Definition round (x : Q) : Z :=
  let f := Qfloor x in
  match (x - inject_Z f ?= 1 # 2)%Q with
  | Lt => f
  | Gt => f + 1
  | Eq => if Z.even f then f else f + 1
  end.

(** [math.ceil(x)]. *)
Definition ceil (x : Q) : Z := Qceiling x.

(** [max(0, x)] on a float: the first maximal argument. *)
Definition max0 (x : Q) : Q :=
  if Qlt_le_dec 0 x then x else 0%Q.

(** *** JSON payloads as Python objects; [JNull] is [None]

    Numbers are integers here: the program never looks inside a number,
    it only tells it from a dictionary, a string and [None]. *)

#[warnings="-register-all"]
Inductive json : Type :=
| JNull
| JBool (b : bool)
| JNum (n : Z)
| JStr (s : string)
| JArr (items : list json)
| JObj (fields : list (string * json)).

(** Truth value of an object, as in [if data:]. *)
Definition truthy (v : json) : bool :=
  match v with
  | JNull => false
  | JBool b => b
  | JNum n => negb (n =? 0)
  | JStr s => negb (String.eqb s "")
  | JArr items => match items with [] => false | _ => true end
  | JObj fields => match fields with [] => false | _ => true end
  end.

(** A decoded JSON object keeps the last value of a repeated key. *)
Fixpoint obj_lookup (key : string) (fields : list (string * json))
    : option json :=
  match fields with
  | [] => None
  | (k, v) :: rest =>
      match obj_lookup key rest with
      | Some v' => Some v'
      | None => if String.eqb k key then Some v else None
      end
  end.

(** [v[key]] with a string key: [KeyError] on a dict without the key,
    [TypeError] on anything that is not a dict. *)
Definition getitem (v : json) (key : string) : result json :=
  match v with
  | JObj fields =>
      match obj_lookup key fields with
      | Some x => Ok x
      | None => Raise KeyError
      end
  | _ => Raise TypeError
  end.

(** The ASCII characters for which [str.isspace] holds. *)
Definition is_space (c : ascii) : bool :=
  let n := nat_of_ascii c in
  ((9 <=? n)%nat && (n <=? 13)%nat) || ((28 <=? n)%nat && (n <=? 32)%nat).

Fixpoint lstrip (s : string) : string :=
  match s with
  | EmptyString => EmptyString
  | String c rest => if is_space c then lstrip rest else s
  end.

Definition string_rev (s : string) : string :=
  string_of_list_ascii (rev (list_ascii_of_string s)).

(** [v.strip()]: only a [str] has the method. *)
Definition strip (v : json) : result string :=
  match v with
  | JStr s => Ok (string_rev (lstrip (string_rev (lstrip s))))
  | _ => Raise AttributeError
  end.

(** *** Insertion-ordered dictionaries from codes to identifiers *)

Definition dict : Type := list (string * string).

Definition keys (d : dict) : list string := d.*1.

(** [d[k] = v]: replace in place, or append a new key. *)
Fixpoint dict_set (k v : string) (d : dict) : dict :=
  match d with
  | [] => [(k, v)]
  | (k', v') :: rest =>
      if String.eqb k' k then (k', v) :: rest
      else (k', v') :: dict_set k v rest
  end.

(** [d.update(e)]. *)
Definition dict_update (d e : dict) : dict :=
  foldl (fun acc kv => dict_set kv.1 kv.2 acc) d e.

(** [dict(items)]. *)
Definition dict_of_items (items : list (string * string)) : dict :=
  dict_update [] items.

(** *** Slicing a list into the batches [l[i : i + size]] for
    [i in range(0, len(l), size)]; the range is empty for a negative
    step (a zero step is ruled out before the loops are reached). *)

Fixpoint chunks {A : Type} (fuel n : nat) (l : list A) : list (list A) :=
  match fuel with
  | O => []
  | S fuel' =>
      match l with
      | [] => []
      | _ => take n l :: chunks fuel' n (drop n l)
      end
  end.

Definition batches {A : Type} (size : Z) (l : list A) : list (list A) :=
  if size <=? 0 then [] else chunks (length l) (Z.to_nat size) l.

Definition len {A : Type} (l : list A) : Z := Z.of_nat (length l).

End Py.

(** ** The planner, from the source *)

Module BulkScraper.

(** [math.ceil(total_requests / batch_size)], as the planner and its
    callers compute it. *)
Definition num_batches (total_requests batch_size : Z) : result Z :=
  (let? q := Py.truediv total_requests batch_size in
   Ok (Py.ceil q))%res.

Definition calculate_batch_parameters
    (total_requests interval_seconds min_batch_size max_batch_size : Z)
    : result (Z * Q) :=
  if total_requests =? 0 then Ok (0, 0%Q)
  else
    (let? requests_per_second := Py.truediv total_requests interval_seconds in
     let ideal_batch_size := Z.max 1 (Py.round requests_per_second) in
     let batch_size :=
       Z.max min_batch_size (Z.min ideal_batch_size max_batch_size) in
     let? n := num_batches total_requests batch_size in
     let? batch_interval :=
       if 1 <? n then Py.truediv interval_seconds n else Ok 0%Q in
     Ok (batch_size, batch_interval))%res.

(** *** The world *)

(** The two endpoints: [locations?srcode=<code>] and
    [get_machine_status_v1?uln=<uln>]. *)
Inductive url : Type :=
| LocationsUrl (code : string)
| StatusUrl (uln : string).

(** What the network does with one GET: an HTTP response (with its body
    decoded as JSON, if it can be), a timeout, or any other exception
    inside the request. *)
Inductive http : Type :=
| Response (status : Z) (body : option Py.json)
| TimedOut
| Failed.

(** A file holds JSON or something [json.load] rejects. *)
Inductive file : Type :=
| FileJson (j : Py.json)
| FileGarbage.

(** What a write does to its file: written in full; an exception before
    the file is opened; an exception after it was truncated. *)
Inductive write_outcome : Type :=
| Written
| NotWritten
| Truncated.

Record Oracle : Type := {
  net : nat -> url -> http;
  write_file : nat -> write_outcome;
  loop_time : nat -> Q;          (* asyncio.get_event_loop().time() *)
  utc_now : nat -> string;       (* the formatted datetime.now(UTC) *)
}.

Inductive log_line : Type :=
| LogHttpError (status : Z) (u : url)
| LogTimeout (u : url)
| LogRequestFailed (u : url)
| LogSaveFailed
| LogSaveFailedCodesFailed
| LogException (code : string)
| LogNotFound (code : string)
| LogNoLocationData (code : string)
| LogNoUln (code : string)
| LogNoStatus (code uln : string)
| LogNoValidLocations
| LogCycleOverrun (cycle_duration : Q).

Inductive event : Type :=
| EvRequest (u : url)
| EvSaveLocation (code : string) (data : Py.json) (o : write_outcome)
| EvSaveStatus (code uln request_time : string) (data : Py.json)
    (o : write_outcome)
| EvSaveFailedCodes (codes : gset string) (o : write_outcome)
| EvParse (code : string)
| EvSleep (seconds : Q)
| EvLog (l : log_line).

(** [disk] holds the location artifacts [<data_dir>/<code>/<code>.json]
    by code; [failed_file] is [failed_codes.json], read as a set of
    strings ([None]: absent or unreadable).  Status artifacts are only
    written, never read back here; they live in the trace. *)
Record State : Type := {
  tick : nat;
  disk : gmap string file;
  failed_file : option (gset string);
  trace : list event;
}.

(** *** Stateful computations that may raise *)

Definition M (A : Type) : Type := State -> result A * State.

Definition ret {A : Type} (a : A) : M A := fun s => (Ok a, s).

Definition bind {A B : Type} (m : M A) (k : A -> M B) : M B :=
  fun s =>
    match m s with
    | (Ok a, s') => k a s'
    | (Raise e, s') => (Raise e, s')
    end.

Definition lift {A : Type} (r : result A) : M A := fun s => (r, s).

Definition get_state : M State := fun s => (Ok s, s).

Definition consult {A : Type} (f : nat -> A) : M A :=
  fun s =>
    (Ok (f (tick s)),
     {| tick := S (tick s); disk := disk s;
        failed_file := failed_file s; trace := trace s |}).

Definition emit (e : event) : M unit :=
  fun s =>
    (Ok tt,
     {| tick := tick s; disk := disk s;
        failed_file := failed_file s; trace := trace s ++ [e] |}).

Definition put_file (code : string) (f : file) : M unit :=
  fun s =>
    (Ok tt,
     {| tick := tick s; disk := <[code := f]> (disk s);
        failed_file := failed_file s; trace := trace s |}).

Definition put_failed_file (c : option (gset string)) : M unit :=
  fun s =>
    (Ok tt,
     {| tick := tick s; disk := disk s;
        failed_file := c; trace := trace s |}).

Declare Scope m_scope.
Delimit Scope m_scope with M.
Notation "'let!' x ':=' m 'in' k" := (bind m (fun x => k))
  (at level 10, x pattern, m at level 100, k at level 200) : m_scope.

Local Open Scope m_scope.

Definition log (l : log_line) : M unit := emit (EvLog l).

Definition sleep (seconds : Q) : M unit := emit (EvSleep seconds).

Definition time (W : Oracle) : M Q := consult (loop_time W).

(** A loop body run over a list, threading an accumulator. *)
Fixpoint for_each {A B : Type} (body : A -> B -> M B) (l : list A) (acc : B)
    : M B :=
  match l with
  | [] => ret acc
  | x :: rest => let! acc' := body x acc in for_each body rest acc'
  end.

(** [asyncio.gather] of all tasks with [return_exceptions=True]: every task
    runs to its end and every outcome is returned, in task order. *)
Inductive gathered (A : Type) : Type :=
| GExc
| GRet (a : A).
Arguments GExc {A}.
Arguments GRet {A} a.

Fixpoint gather {A : Type} (tasks : list (M A)) : M (list (gathered A)) :=
  match tasks with
  | [] => ret []
  | t :: rest =>
      fun s =>
        match t s with
        | (Ok a, s') => (let! rs := gather rest in ret (GRet a :: rs)) s'
        | (Raise _, s') => (let! rs := gather rest in ret (GExc :: rs)) s'
        end
  end.

(** *** The scraper *)

Section Scraper.

Variable W : Oracle.

Definition load_failed_codes : M (gset string) :=
  let! s := get_state in
  ret (default ∅ (failed_file s)).

Definition save_failed_codes (failed_codes : gset string) : M unit :=
  let! o := consult (write_file W) in
  let! _ := emit (EvSaveFailedCodes failed_codes o) in
  match o with
  | Written => put_failed_file (Some failed_codes)
  | NotWritten => log LogSaveFailedCodesFailed
  | Truncated =>
      let! _ := put_failed_file None in log LogSaveFailedCodesFailed
  end.

Definition make_request (u : url) : M (Py.json * Z) :=
  let! _ := emit (EvRequest u) in
  let! r := consult (fun n => net W n u) in
  match r with
  | Response status body =>
      if status =? 200 then
        match body with
        | Some data => ret (data, status)
        | None => let! _ := log (LogRequestFailed u) in ret (Py.JNull, 0)
        end
      else
        let! _ := log (LogHttpError status u) in ret (Py.JNull, status)
  | TimedOut => let! _ := log (LogTimeout u) in ret (Py.JNull, 0)
  | Failed => let! _ := log (LogRequestFailed u) in ret (Py.JNull, 0)
  end.

Definition get_location_data (location_code : string) : M (Py.json * Z) :=
  make_request (LocationsUrl location_code).

Definition get_machine_status (uln : string) : M (Py.json * Z) :=
  make_request (StatusUrl uln).

(** [save_json(data, data_dir / code / f"{code}.json", logger)]. *)
Definition save_location (code : string) (data : Py.json) : M bool :=
  let! o := consult (write_file W) in
  let! _ := emit (EvSaveLocation code data o) in
  match o with
  | Written => let! _ := put_file code (FileJson data) in ret true
  | NotWritten => let! _ := log LogSaveFailed in ret false
  | Truncated =>
      let! _ := put_file code FileGarbage in
      let! _ := log LogSaveFailed in ret false
  end.

(** [save_json(data, data_dir / code / f"{uln}-{request_time}.json", logger)]. *)
Definition save_status (code uln request_time : string) (data : Py.json)
    : M bool :=
  let! o := consult (write_file W) in
  let! _ := emit (EvSaveStatus code uln request_time data o) in
  match o with
  | Written => ret true
  | _ => let! _ := log LogSaveFailed in ret false
  end.

Definition file_exists (d : gmap string file) (code : string) : Prop :=
  is_Some (d !! code).

(** [load_json(data_dir / code / f"{code}.json")]. *)
Definition load_json (d : gmap string file) (code : string) : Py.json :=
  match d !! code with
  | Some (FileJson j) => j
  | _ => Py.JNull
  end.

(** [parse_and_cleanup_location_data]: it catches what it raises and
    its result is not used; it reads and removes status artifacts only. *)
Definition parse_and_cleanup_location_data (location_code : string)
    : M unit :=
  emit (EvParse location_code).

(** [data["location"]["uln"].strip()]. *)
Definition extract_uln (data : Py.json) : result string :=
  (let? location := Py.getitem data "location" in
   let? uln := Py.getitem location "uln" in
   Py.strip uln)%res.

(** One turn of the loop over the gathered results of a location batch. *)
Definition process_location_result
    (item : string * gathered (Py.json * Z)) (acc : Py.dict * gset string)
    : M (Py.dict * gset string) :=
  let '(code, result) := item in
  let '(location_to_uln, new_failed_codes) := acc in
  match result with
  | GExc => let! _ := log (LogException code) in ret acc
  | GRet (data, status_code) =>
      if status_code =? 404 then
        let! _ := log (LogNotFound code) in
        ret (location_to_uln, new_failed_codes ∪ {[code]})
      else
        match data with
        | Py.JNull => let! _ := log (LogNoLocationData code) in ret acc
        | _ =>
            match extract_uln data with
            | Ok uln =>
                let! saved := save_location code data in
                if saved
                then ret (Py.dict_set code uln location_to_uln,
                          new_failed_codes)
                else ret acc
            | Raise KeyError => let! _ := log (LogNoUln code) in ret acc
            | Raise e => lift (Raise e)
            end
        end
  end.

Definition needs_request (failed_codes : gset string)
    (d : gmap string file) (code : string) : Prop :=
  (code ∉ failed_codes) ∧ ¬ file_exists d code.

Definition scrape_location_batch
    (location_codes : list string) (failed_codes : gset string)
    : M (Py.dict * gset string) :=
  let! s := get_state in
  let requested :=
    filter (needs_request failed_codes (disk s)) location_codes in
  match requested with
  | [] => ret ([], failed_codes)
  | _ =>
      let! results := gather (get_location_data <$> requested) in
      let! (location_to_uln, new_failed_codes) :=
        for_each process_location_result (zip requested results) ([], ∅) in
      ret (location_to_uln, failed_codes ∪ new_failed_codes)
  end.

(** One turn of the loop over the gathered results of a status batch. *)
Definition process_status_result (request_time : string)
    (item : (string * string) * gathered (Py.json * Z))
    (acc : Z * list string) : M (Z * list string) :=
  let '((code, uln), result) := item in
  let '(success_count, codes_to_parse) := acc in
  match result with
  | GExc => let! _ := log (LogException code) in ret acc
  | GRet (data, status_code) =>
      match data with
      | Py.JNull => let! _ := log (LogNoStatus code uln) in ret acc
      | _ =>
          let! saved := save_status code uln request_time data in
          if saved
          then ret (success_count + 1, codes_to_parse ++ [code])
          else ret acc
      end
  end.

Definition scrape_machine_status_batch (location_to_uln : Py.dict) : M Z :=
  match location_to_uln with
  | [] => ret 0
  | _ =>
      let! results :=
        gather ((fun item => get_machine_status item.2) <$> location_to_uln) in
      let! request_time := consult (utc_now W) in
      let! (success_count, codes_to_parse) :=
        for_each (process_status_result request_time)
                 (zip location_to_uln results) (0, []) in
      let! _ :=
        for_each (fun code (_ : unit) => parse_and_cleanup_location_data code)
                 codes_to_parse tt in
      ret success_count
  end.

Fixpoint get_existing_locations (d : gmap string file)
    (location_codes : list string) (location_to_uln : Py.dict)
    : result Py.dict :=
  match location_codes with
  | [] => Ok location_to_uln
  | code :: rest =>
      let data := load_json d code in
      if Py.truthy data then
        match extract_uln data with
        | Ok uln =>
            get_existing_locations d rest (Py.dict_set code uln location_to_uln)
        | Raise KeyError => get_existing_locations d rest location_to_uln
        | Raise e => Raise e
        end
      else get_existing_locations d rest location_to_uln
  end.

(** The wait after a batch, in both phases. *)
Definition batch_cooldown (batch_num total_batches : Z)
    (batch_interval batch_start : Q) : M unit :=
  if batch_num <? total_batches then
    let! now := time W in
    let elapsed := (now - batch_start)%Q in
    let sleep_time := Py.max0 (batch_interval - elapsed) in
    if Qlt_le_dec 0 sleep_time then sleep sleep_time else ret tt
  else ret tt.

(** The loop of phase 1; [batch_num] is [i // location_batch_size + 1]. *)
Fixpoint location_batches (total_batches : Z) (batch_interval : Q)
    (todo : list (list string)) (batch_num : Z)
    (new_locations : Py.dict) (failed_codes : gset string)
    : M (Py.dict * gset string) :=
  match todo with
  | [] => ret (new_locations, failed_codes)
  | batch :: rest =>
      let! batch_start := time W in
      let! (batch_locations, failed_codes') :=
        scrape_location_batch batch failed_codes in
      let new_locations' := Py.dict_update new_locations batch_locations in
      let! _ :=
        batch_cooldown batch_num total_batches batch_interval batch_start in
      location_batches total_batches batch_interval rest (batch_num + 1)
                       new_locations' failed_codes'
  end.

(** The default of [min_batch_size], which [run_bulk_scraper] leaves as it
    is in both of its calls of the planner. *)
Definition min_batch_size : Z := 5.

(** Phase 1, entered when some code needs its location data. *)
Definition phase1 (codes_needing_location : list string)
    (interval_seconds max_concurrent : Z) (failed_codes : gset string)
    : M (Py.dict * gset string) :=
  let! (location_batch_size, location_batch_interval) :=
    lift (calculate_batch_parameters (Py.len codes_needing_location)
            interval_seconds min_batch_size max_concurrent) in
  let! total_location_batches :=
    lift (num_batches (Py.len codes_needing_location) location_batch_size) in
  let! (new_locations, failed_codes') :=
    location_batches total_location_batches location_batch_interval
      (Py.batches location_batch_size codes_needing_location) 1
      [] failed_codes in
  let! _ := save_failed_codes failed_codes' in
  ret (new_locations, failed_codes').

(** [run_bulk_scraper] up to the end of phase 1: the resolved map
    ([existing_locations] after its update), the failure set, the
    codes that needed location data, and the start time. *)
Definition resolve (location_codes : list string)
    (interval_seconds max_concurrent : Z)
    : M (Py.dict * gset string * list string * Q) :=
  let! failed_codes := load_failed_codes in
  let active_codes := filter (fun code => code ∉ failed_codes) location_codes in
  let! s := get_state in
  let! existing_locations :=
    lift (get_existing_locations (disk s) location_codes []) in
  let codes_needing_location :=
    filter (fun code => code ∉ Py.keys existing_locations) active_codes in
  let! start_time := time W in
  match codes_needing_location with
  | [] => ret (existing_locations, failed_codes, codes_needing_location,
               start_time)
  | _ =>
      let! (new_locations, failed_codes') :=
        phase1 codes_needing_location interval_seconds max_concurrent
               failed_codes in
      ret (Py.dict_update existing_locations new_locations, failed_codes',
           codes_needing_location, start_time)
  end.

(** The loop over the batches of one cycle; [batch_num] is
    [i // status_batch_size + 1]. *)
Fixpoint status_batches (total_batches : Z) (batch_interval : Q)
    (todo : list (list (string * string))) (batch_num : Z)
    (total_success : Z) : M Z :=
  match todo with
  | [] => ret total_success
  | items :: rest =>
      let batch_dict := Py.dict_of_items items in
      let! batch_start := time W in
      let! success_count := scrape_machine_status_batch batch_dict in
      let! _ :=
        batch_cooldown batch_num total_batches batch_interval batch_start in
      status_batches total_batches batch_interval rest (batch_num + 1)
                     (total_success + success_count)
  end.

(** The wait after a cycle. *)
Definition cycle_cooldown (interval_seconds : Z) (cycle_duration : Q)
    : M unit :=
  let remaining_cycle_time := (inject_Z interval_seconds - cycle_duration)%Q in
  if Qlt_le_dec 0 remaining_cycle_time
  then sleep remaining_cycle_time
  else log (LogCycleOverrun cycle_duration).

(** One turn of [while True]. *)
Definition cycle (location_items : list (string * string))
    (interval_seconds status_batch_size total_status_batches : Z)
    (status_batch_interval : Q) : M unit :=
  let! cycle_start_time := time W in
  let! total_success :=
    status_batches total_status_batches status_batch_interval
      (Py.batches status_batch_size location_items) 1 0 in
  let! now := time W in
  cycle_cooldown interval_seconds (now - cycle_start_time)%Q.

(** The first [n] turns of [while True]. *)
Fixpoint cycles (n : nat) (location_items : list (string * string))
    (interval_seconds status_batch_size total_status_batches : Z)
    (status_batch_interval : Q) : M unit :=
  match n with
  | O => ret tt
  | S n' =>
      let! _ :=
        cycle location_items interval_seconds status_batch_size
              total_status_batches status_batch_interval in
      cycles n' location_items interval_seconds status_batch_size
             total_status_batches status_batch_interval
  end.

(** Phase 2, run for [n] cycles. *)
Definition poll (existing_locations : Py.dict)
    (codes_needing_location : list string) (start_time : Q)
    (interval_seconds max_concurrent : Z) (n : nat) : M unit :=
  match existing_locations with
  | [] => log LogNoValidLocations
  | _ =>
      let! now := time W in
      let phase1_duration := (now - start_time)%Q in
      let! _ :=
        match codes_needing_location with
        | [] => ret tt
        | _ =>
            if Qlt_le_dec phase1_duration (inject_Z interval_seconds)
            then sleep (inject_Z interval_seconds - phase1_duration)%Q
            else ret tt
        end in
      let! (status_batch_size, status_batch_interval) :=
        lift (calculate_batch_parameters (Py.len existing_locations)
                interval_seconds min_batch_size max_concurrent) in
      let! total_status_batches :=
        lift (num_batches (Py.len existing_locations) status_batch_size) in
      cycles n existing_locations interval_seconds status_batch_size
             total_status_batches status_batch_interval
  end.

(** [run_bulk_scraper], with the endless loop cut after [n] cycles. *)
Definition run_bulk_scraper (location_codes : list string)
    (interval_minutes max_concurrent : Z) (n : nat) : M unit :=
  let interval_seconds := interval_minutes * 60 in
  let! (existing_locations, failed_codes, codes_needing_location, start_time) :=
    resolve location_codes interval_seconds max_concurrent in
  poll existing_locations codes_needing_location start_time
       interval_seconds max_concurrent n.

End Scraper.

End BulkScraper.

(** ** The planner, from the specification *)

Module Reference.


(** The least integer not below the fraction [a / b]. *)
Definition ceil_div (a b : Z) : Z := - ((- a) / b).



End Reference.

Import BulkScraper.

(** ** Notions used in the statements *)


(** The reply [make_request] hands back for what the network did. *)
Definition reply_of (h : http) : Py.json * Z :=
  match h with
  | Response status body =>
      if status =? 200 then
        match body with
        | Some data => (data, status)
        | None => (Py.JNull, 0)
        end
      else (Py.JNull, status)
  | TimedOut | Failed => (Py.JNull, 0)
  end.



(** Two states that differ in their traces only. *)
Definition same_world (s s' : State) : Prop :=
  tick s = tick s' ∧ disk s = disk s' ∧ failed_file s = failed_file s'.

(** A computation moves every state along a relation. *)
Definition moves {A : Type} (R : relation State) (m : M A) : Prop :=
  ∀ s, R s (m s).2.

(** The trace grows by events that satisfy [P]. *)
Definition emitting (P : event → Prop) : relation State :=
  fun s s' => ∃ evs, trace s' = trace s ++ evs ∧ Forall P evs.

Definition keeping {X : Type} (f : State → X) : relation State :=
  fun s s' => f s' = f s.

Definition both (R1 R2 : relation State) : relation State :=
  fun s s' => R1 s s' ∧ R2 s s'.




(** Disk and failure file stay as they are; the trace grows by [P]-events. *)
Definition quiet (P : event → Prop) : relation State :=
  both (keeping disk) (both (keeping failed_file) (emitting P)).




(** Status artifacts, if any, carry the timestamp [t]. *)
Definition stamped (t : string) (e : event) : Prop :=
  match e with
  | EvSaveStatus _ _ request_time _ _ => request_time = t
  | _ => True
  end.

(** The events of the resolution phase, seen from a failure set: location
    requests for codes outside it, flushes of sets that include it, and no
    status request. *)
Definition resolution_event (failed : gset string) (e : event) : Prop :=
  match e with
  | EvRequest (LocationsUrl c) => c ∉ failed
  | EvRequest (StatusUrl _) => False
  | EvSaveFailedCodes codes _ => failed ⊆ codes
  | _ => True
  end.

(** Events that are neither requests nor flushes. *)
Definition local_event (e : event) : Prop :=
  match e with
  | EvRequest _ | EvSaveFailedCodes _ _ => False
  | _ => True
  end.

(** Files are never removed. *)
Definition disk_grows : relation State :=
  fun s s' => ∀ c, file_exists (disk s) c → file_exists (disk s') c.

(** Files stay; the trace grows by [P]-events. *)
Definition resolving (P : event → Prop) : relation State :=
  both disk_grows (emitting P).


(** *** Sample worlds *)

Definition sample_location : Py.json :=
  Py.JObj [("location", Py.JObj [("uln", Py.JStr " AB1234 ")])].

Definition sample_status : Py.json := Py.JObj [("rooms", Py.JArr [])].

(** A world in which every request succeeds and every write lands; the
    event-loop clock shows the number of consultations so far, and the
    wall clock moves on after the tenth. *)
Definition steady_world : Oracle :=
  {| net := fun _ u =>
       match u with
       | LocationsUrl _ => Response 200 (Some sample_location)
       | StatusUrl _ => Response 200 (Some sample_status)
       end;
     write_file := fun _ => Written;
     loop_time := fun n => inject_Z (Z.of_nat n);
     utc_now := fun n =>
       if (n <? 10)%nat then "2024-05-01T10:00:00.0000Z"
       else "2024-05-01T10:07:30.0000Z" |}.

Definition empty_state : State :=
  {| tick := 0; disk := ∅; failed_file := None; trace := [] |}.

Definition six_items : list (string * string) :=
  [("W000001", "AB1"); ("W000002", "AB2"); ("W000003", "AB3");
   ("W000004", "AB4"); ("W000005", "AB5"); ("W000006", "AB6")].

(** C2 as stated: the status artifacts of one cycle share one timestamp. *)
Definition cycle_single_timestamp (W : Oracle)
    (location_items : list (string * string))
    (interval_seconds status_batch_size total_status_batches : Z)
    (status_batch_interval : Q) (s : State) : Prop :=
  ∃ t, emitting (stamped t) s
         (cycle W location_items interval_seconds status_batch_size
                total_status_batches status_batch_interval s).2.

(** A state left by earlier runs: ["W000001"] is in the failure file and
    has a location artifact on disk all the same. *)
Definition warm_state : State :=
  {| tick := 0;
     disk := {["W000001" := FileJson sample_location]};
     failed_file := Some {["W000001"]};
     trace := [] |}.

(** ** Location codes, from [bulk_scraper.py]

    Strings are sequences of ASCII characters: [str.upper] maps [a]-[z] to
    [A]-[Z], and the classes [[A-Z]] and [\d] are the ASCII ones.  The
    log lines of these functions are left out. *)

Module Codes.

Definition is_upper (c : ascii) : bool :=
  let n := nat_of_ascii c in (65 <=? n)%nat && (n <=? 90)%nat.

Definition is_lower (c : ascii) : bool :=
  let n := nat_of_ascii c in (97 <=? n)%nat && (n <=? 122)%nat.

Definition is_digit (c : ascii) : bool :=
  let n := nat_of_ascii c in (48 <=? n)%nat && (n <=? 57)%nat.

Definition upper_char (c : ascii) : ascii :=
  if is_lower c then ascii_of_nat (nat_of_ascii c - 32) else c.

(** [s.upper()]. *)
Fixpoint upper (s : string) : string :=
  match s with
  | EmptyString => EmptyString
  | String c rest => String (upper_char c) (upper rest)
  end.

(** The longest prefix of [s] in the class [p], and what follows it. *)
Fixpoint span (p : ascii → bool) (s : string) : string * string :=
  match s with
  | EmptyString => (EmptyString, EmptyString)
  | String c rest =>
      if p c then let (a, b) := span p rest in (String c a, b)
      else (EmptyString, s)
  end.

Fixpoint all_in (p : ascii → bool) (s : string) : bool :=
  match s with
  | EmptyString => true
  | String c rest => p c && all_in p rest
  end.

Definition str_len (s : string) : Z := Z.of_nat (String.length s).

(** [int(digits)] on a string of decimal digits. *)
Definition int_of_digits (digits : string) : Z :=
  match NilEmpty.uint_of_string digits with
  | Some d => Z.of_N (N.of_uint d)
  | None => 0
  end.

(** [str(n)] for [n >= 0]. *)
Definition digits_of (n : Z) : string :=
  NilZero.string_of_uint (N.to_uint (Z.to_N n)).

Fixpoint zeros (k : nat) : string :=
  match k with
  | O => EmptyString
  | S k' => String "0" (zeros k')
  end.

(** [f"{num:0{width}d}"]: sign-aware zero padding to [width]. *)
Definition format_0d (width num : Z) : string :=
  if num <? 0 then
    let ds := digits_of (- num) in
    String "-" (zeros (Z.to_nat (width - 1 - str_len ds)) +:+ ds)
  else
    let ds := digits_of num in
    zeros (Z.to_nat (width - str_len ds)) +:+ ds.

(** The [ValueError]s of this part of the program. *)
Inductive value_error : Type :=
| InvalidFormat (location_code : string)
| PrefixMismatch (start_prefix end_prefix : string)
| StartAfterEnd (start_num end_num : Z).

Inductive checked (A : Type) : Type :=
| Valid (a : A)
| ValueError (e : value_error).
Arguments Valid {A} a.
Arguments ValueError {A} e.

(** [re.match(r"([A-Z]+)(\d+)", location_code.upper())]: both groups are
    greedy and the second class is disjoint from the first, so the match,
    if there is one, takes the longest run of letters and then the longest
    run of digits. *)
Definition parse_location_code (location_code : string)
    : checked (string * Z) :=
  let (prefix, rest) := span is_upper (upper location_code) in
  let (digits, _) := span is_digit rest in
  match prefix, digits with
  | EmptyString, _ | _, EmptyString => ValueError (InvalidFormat location_code)
  | _, _ => Valid (prefix, int_of_digits digits)
  end.

Definition generate_location_codes (start_code end_code : string)
    : checked (list string) :=
  match parse_location_code start_code with
  | ValueError e => ValueError e
  | Valid (start_prefix, start_num) =>
      match parse_location_code end_code with
      | ValueError e => ValueError e
      | Valid (end_prefix, end_num) =>
          if negb (String.eqb start_prefix end_prefix)
          then ValueError (PrefixMismatch start_prefix end_prefix)
          else if end_num <? start_num
          then ValueError (StartAfterEnd start_num end_num)
          else
            let start_padding := str_len start_code - str_len start_prefix in
            Valid ((fun num => start_prefix +:+ format_0d start_padding num)
                     <$> seqZ start_num (end_num + 1 - start_num))
      end
  end.

Definition is_valid (code : string) : bool :=
  match parse_location_code code with
  | Valid _ => true
  | ValueError _ => false
  end.

Definition validate_location_codes (codes : list string) : list string :=
  omap (fun code => if is_valid code then Some (upper code) else None) codes.

(** [s.strip()] on a [str]. *)
Definition str_strip (s : string) : string :=
  Py.string_rev (Py.lstrip (Py.string_rev (Py.lstrip s))).

Definition starts_with_hash (s : string) : bool :=
  match s with
  | String "#" _ => true
  | _ => false
  end.

(** The loop of [load_location_codes_from_file] over the lines of the
    file. *)
Definition load_location_codes_from_lines (lines : list string) : list string :=
  omap (fun raw =>
          let line := str_strip raw in
          if String.eqb line "" || starts_with_hash line then None
          else if is_valid line then Some (upper line) else None)
       lines.

End Codes.

(** ** File names of status artifacts, from [parser.py] and from
    [parse_and_cleanup_location_data]

    The two regular expressions are sequences of one-character classes,
    but for one [+]; [\d] is the ASCII class, file names being ASCII here. *)

Module Names.

(** A regular expression that is a sequence of one-character classes. *)
Definition pattern : Type := list (ascii → bool).

Definition lit (c : ascii) : ascii → bool := Ascii.eqb c.

Definition lits (s : string) : pattern := lit <$> list_ascii_of_string s.

Definition digits (n : nat) : pattern := replicate n Codes.is_digit.

(** The pattern matched at the start of [s]: the text matched and the
    rest of [s]. *)
Fixpoint match_prefix (pat : pattern) (s : string) : option (string * string) :=
  match pat with
  | [] => Some (EmptyString, s)
  | p :: pat' =>
      match s with
      | EmptyString => None
      | String c s' =>
          if p c then
            match match_prefix pat' s' with
            | Some (m, rest) => Some (String c m, rest)
            | None => None
            end
          else None
      end
  end.

(** [$]: the end of the string, or just before a newline that ends it. *)
Definition at_end (s : string) : bool :=
  match s with
  | EmptyString => true
  | String c EmptyString => Ascii.eqb c "010"
  | _ => false
  end.

(** [\d{4}-\d{2}-\d{2}T\d{2}:\d{2}:\d{2}\.\d{4}Z]. *)
Definition timestamp : pattern :=
  digits 4 ++ [lit "-"] ++ digits 2 ++ [lit "-"] ++ digits 2 ++ [lit "T"]
    ++ digits 2 ++ [lit ":"] ++ digits 2 ++ [lit ":"] ++ digits 2
    ++ [lit "."] ++ digits 4 ++ [lit "Z"].

(** [-(\d{4}-\d{2}-\d{2}T\d{2}:\d{2}:\d{2}\.\d{4}Z)\.json$] tried at the
    start of [s]: group 1 of the match. *)
Definition request_time_here (s : string) : option string :=
  match match_prefix ([lit "-"] ++ timestamp ++ lits ".json") s with
  | Some (m, tail) =>
      if at_end tail then Some (substring 1 (length timestamp) m) else None
  | None => None
  end.

(** [extract_request_time]: [re.search] takes the leftmost position at
    which the pattern matches. *)
Fixpoint extract_request_time (filename : string) : option string :=
  match request_time_here filename with
  | Some t => Some t
  | None =>
      match filename with
      | EmptyString => None
      | String _ rest => extract_request_time rest
      end
  end.

Definition is_upper_alnum (c : ascii) : bool :=
  Codes.is_upper c || Codes.is_digit c.

(** One or more characters of [cls], then [k]: some split must work,
    whichever the engine tries first. *)
Fixpoint some_then (cls : ascii → bool) (k : string → bool) (s : string)
    : bool :=
  match s with
  | EmptyString => false
  | String c s' => cls c && (k s' || some_then cls k s')
  end.

(** [-\d{4}-\d{2}-\d{2}T\d{2}:\d{2}:\d{2}\.\d{4}Z\.json$] at the start of
    [s]. *)
Definition status_tail_here (s : string) : bool :=
  match match_prefix ([lit "-"] ++ timestamp ++ lits ".json") s with
  | Some (_, tail) => at_end tail
  | None => false
  end.

(** [uln_pattern.match(name)] of [parse_and_cleanup_location_data], for
    [^[A-Z]{2}[A-Z0-9]+-\d{4}-\d{2}-\d{2}T\d{2}:\d{2}:\d{2}\.\d{4}Z\.json$]. *)
Definition is_status_file_name (name : string) : bool :=
  match match_prefix [Codes.is_upper; Codes.is_upper] name with
  | Some (_, rest) => some_then is_upper_alnum status_tail_here rest
  | None => false
  end.

(** The file name [f"{uln}-{request_time}.json"] of a status artifact. *)
Definition status_file_name (uln request_time : string) : string :=
  uln +:+ "-" +:+ request_time +:+ ".json".

(** The file name [f"{code}.json"] of a location artifact. *)
Definition location_file_name (code : string) : string := code +:+ ".json".

End Names.

(** ** Notions used in the statements about codes, file names and runs *)

(** What follows a run of [p]: nothing, or a character outside [p]. *)
Definition stops (p : ascii → bool) (s : string) : Prop :=
  match s with
  | EmptyString => True
  | String c _ => p c = false
  end.

(** A string of the shape of a request timestamp,
    [\d{4}-\d{2}-\d{2}T\d{2}:\d{2}:\d{2}\.\d{4}Z]: what
    [strftime("%Y-%m-%dT%H:%M:%S.%fZ")[:-3] + "Z"] produces. *)
Definition is_timestamp (t : string) : Prop :=
  Names.match_prefix Names.timestamp t = Some (t, EmptyString).

(** [[A-Z]{2}[A-Z0-9]+], the whole string. *)
Definition uln_shape (uln : string) : bool :=
  match Names.match_prefix [Codes.is_upper; Codes.is_upper] uln with
  | Some (_, rest) =>
      negb (String.eqb rest "") && Codes.all_in Names.is_upper_alnum rest
  | None => false
  end.

Definition is_alnum (c : ascii) : bool :=
  Codes.is_upper c || Codes.is_lower c || Codes.is_digit c.

Fixpoint last_char (s : string) : option ascii :=
  match s with
  | EmptyString => None
  | String c EmptyString => Some c
  | String _ rest => last_char rest
  end.

Definition no_hyphen (s : string) : bool :=
  Codes.all_in (fun c => negb (Ascii.eqb c "-")) s.

(** Any event but a location request for [c]. *)
Definition other_than_request (c : string) (e : event) : Prop :=
  e ≠ EvRequest (LocationsUrl c).

(** The codes handed to the parser in a stretch of trace, in order. *)
Definition parsed_in (evs : list event) : list string :=
  omap (fun e => match e with EvParse code => Some code | _ => None end) evs.

(** The codes whose status artifact was written in a stretch of trace. *)
Definition saved_in (evs : list event) : list string :=
  omap (fun e => match e with
                 | EvSaveStatus code _ _ _ Written => Some code
                 | _ => None
                 end) evs.

(** Requests and log lines. *)
Definition request_or_log (e : event) : Prop :=
  match e with
  | EvRequest _ | EvLog _ => True
  | _ => False
  end.

(** *** More sample worlds *)

(** A state in which ["W000001"] is in the failure file and nothing is on
    disk. *)
Definition failed_only_state : State :=
  {| tick := 0; disk := ∅; failed_file := Some {["W000001"]}; trace := [] |}.

(** A state in which the artifact of ["W000001"] is a JSON list. *)
Definition malformed_state : State :=
  {| tick := 0;
     disk := {["W000001" := FileJson (Py.JArr [Py.JNull])]};
     failed_file := None;
     trace := [] |}.

Definition sample_timestamp : string := "2024-05-01T10:00:00.0000Z".

(** ** Rational arithmetic against integer arithmetic *)

Section Quotients.

Lemma truediv_ok (a b : Z) :
  b <> 0 -> Py.truediv a b = Ok (inject_Z a / inject_Z b)%Q.
Proof.
  intros Hb. unfold Py.truediv.
  destruct (Z.eqb_spec b 0) as [E | _]; [contradiction | reflexivity].
Qed.

Lemma truediv_zero (a : Z) : Py.truediv a 0 = Raise ZeroDivisionError.
Proof. reflexivity. Qed.

Lemma ceil_quotient (a b : Z) :
  Py.ceil (inject_Z a / inject_Z b) = Reference.ceil_div a b.
Proof.
  unfold Py.ceil, Qceiling, Reference.ceil_div. f_equal.
  rewrite Zdiv_Qdiv. apply Qfloor_comp.
  rewrite inject_Z_opp. unfold Qdiv. ring.
Qed.




End Quotients.

(** ** The batch planner *)

Section Planner.

Lemma num_batches_ok (total batch_size : Z) :
  batch_size <> 0 ->
  num_batches total batch_size = Ok (Reference.ceil_div total batch_size).
Proof.
  intros Hb. unfold num_batches. rewrite (truediv_ok _ _ Hb). simpl.
  now rewrite ceil_quotient.
Qed.

Lemma num_batches_zero (total : Z) :
  num_batches total 0 = Raise ZeroDivisionError.
Proof. reflexivity. Qed.



Lemma batch_size_value (total interval min_batch max_batch bs : Z) (d : Q) :
  total <> 0 ->
  calculate_batch_parameters total interval min_batch max_batch = Ok (bs, d) ->
  interval <> 0
  /\ bs = Z.max min_batch
            (Z.min (Z.max 1 (Py.round (inject_Z total / inject_Z interval)))
                   max_batch)
  /\ bs <> 0.
Proof.
  intros Ht. unfold calculate_batch_parameters.
  destruct (Z.eqb_spec total 0); [contradiction |].
  destruct (Z.eqb_spec interval 0) as [-> | Hi]; [discriminate |].
  rewrite (truediv_ok _ _ Hi). cbn [rbind].
  set (b := Z.max min_batch _).
  destruct (Z.eq_dec b 0) as [-> | Hb]; [discriminate |].
  rewrite (num_batches_ok _ _ Hb). cbn [rbind].
  destruct (_ : result Q); cbn [rbind]; [| discriminate].
  intros [= <- _]. auto.
Qed.

Lemma plan_returns (total interval min_batch max_batch : Z) :
  interval <> 0 ->
  Z.max min_batch
    (Z.min (Z.max 1 (Py.round (inject_Z total / inject_Z interval))) max_batch)
    <> 0 ->
  exists bs d,
    calculate_batch_parameters total interval min_batch max_batch = Ok (bs, d).
Proof.
  intros Hi Hb. unfold calculate_batch_parameters.
  destruct (total =? 0); [eauto |].
  rewrite (truediv_ok _ _ Hi). cbn [rbind].
  rewrite (num_batches_ok _ _ Hb). cbn [rbind].
  destruct (Z.ltb_spec 1 (Reference.ceil_div total
    (Z.max min_batch
      (Z.min (Z.max 1 (Py.round (inject_Z total / inject_Z interval)))
             max_batch)))); [rewrite truediv_ok by lia |]; cbn [rbind]; eauto.
Qed.

(** The planner raises exactly when it has items to plan for and divides
    by zero: a zero interval, or bounds that make the batch size zero. *)
Lemma calculate_batch_parameters_raises (total interval min_batch max_batch : Z) :
  (∃ e, calculate_batch_parameters total interval min_batch max_batch = Raise e)
  ↔ total ≠ 0
    ∧ (interval = 0
       ∨ Z.max min_batch
           (Z.min (Z.max 1 (Py.round (inject_Z total / inject_Z interval)))
                  max_batch) = 0).
Proof.
  split.
  - intros [e He]. assert (Ht : total ≠ 0).
    { intros ->. discriminate. }
    split; [exact Ht |].
    destruct (Z.eq_dec interval 0) as [| Hi]; [now left |]. right.
    destruct (Z.eq_dec (Z.max min_batch
      (Z.min (Z.max 1 (Py.round (inject_Z total / inject_Z interval)))
             max_batch)) 0) as [| Hb]; [assumption |].
    destruct (plan_returns total interval min_batch max_batch Hi Hb)
      as (bs & d & Hp).
    congruence.
  - intros [Ht H].
    destruct (calculate_batch_parameters total interval min_batch max_batch)
      as [[bs d] | e] eqn:Hp; [| eauto].
    destruct (batch_size_value _ _ _ _ _ _ Ht Hp) as (Hi & Hbs & Hnz).
    destruct H as [H | H]; [contradiction | congruence].
Qed.

(** The scenarios of the specification. *)
Example plan_100_items :
  calculate_batch_parameters 100 900 5 50 = Ok (5, (900 # 20)%Q)
  ∧ (900 # 20 == 45)%Q.
Proof. split; reflexivity. Qed.

Example plan_7_items :
  calculate_batch_parameters 7 900 5 50 = Ok (5, (900 # 2)%Q)
  ∧ (900 # 2 == 450)%Q.
Proof. split; reflexivity. Qed.

Example plan_tie_goes_to_even :
  calculate_batch_parameters 5 2 1 50 = Ok (2, (2 # 3)%Q).
Proof. reflexivity. Qed.




End Planner.

(** ** Frames: what a computation leaves alone *)

Section Frames.

Context (R : relation State) `{!PreOrder R}.

Lemma moves_ret {A : Type} (a : A) : moves R (ret a).
Proof. intros s. reflexivity. Qed.

Lemma moves_lift {A : Type} (r : result A) : moves R (lift r).
Proof. intros s. reflexivity. Qed.

Lemma moves_get_state : moves R get_state.
Proof. intros s. reflexivity. Qed.

Lemma moves_bind {A B : Type} (m : M A) (k : A → M B) :
  moves R m → (∀ a, moves R (k a)) → moves R (bind m k).
Proof.
  intros Hm Hk s. unfold bind. specialize (Hm s).
  destruct (m s) as [[a | e] s1]; cbn in *; [| exact Hm].
  etransitivity; [exact Hm | apply Hk].
Qed.

Lemma moves_for_each {A B : Type} (body : A → B → M B) (l : list A) :
  (∀ x acc, moves R (body x acc)) → ∀ acc, moves R (for_each body l acc).
Proof.
  intros Hb. induction l as [| x l IH]; intros acc; cbn [for_each].
  - apply moves_ret.
  - apply moves_bind; [apply Hb | exact IH].
Qed.

Lemma moves_gather {A : Type} (tasks : list (M A)) :
  Forall (moves R) tasks → moves R (gather tasks).
Proof.
  induction 1 as [| t tasks Ht _ IH]; cbn [gather]; [apply moves_ret |].
  intros s. specialize (Ht s).
  destruct (t s) as [[a | e] s1]; cbn in *;
    (etransitivity; [exact Ht |]);
    apply (moves_bind (gather tasks)); auto; intros; apply moves_ret.
Qed.

End Frames.

#[global] Instance emitting_preorder (P : event → Prop) : PreOrder (emitting P).
Proof.
  split.
  - intros s. exists []. split; [now rewrite app_nil_r | constructor].
  - intros s1 s2 s3 (e1 & H1 & F1) (e2 & H2 & F2). exists (e1 ++ e2).
    split; [rewrite H2, H1; now rewrite app_assoc | now apply Forall_app].
Qed.

#[global] Instance keeping_preorder {X : Type} (f : State → X) :
  PreOrder (keeping f).
Proof.
  split; [intros s; reflexivity |].
  intros s1 s2 s3 H1 H2; unfold keeping in *; congruence.
Qed.

#[global] Instance both_preorder (R1 R2 : relation State)
  `{!PreOrder R1} `{!PreOrder R2} : PreOrder (both R1 R2).
Proof.
  split.
  - intros s; split; reflexivity.
  - intros s1 s2 s3 [H1 H2] [H3 H4]; split; etransitivity; eauto.
Qed.

(** ** Requests and their outcomes *)

Section Requests.

Variable W : Oracle.

Lemma make_request_spec (u : url) (s : State) :
  ∃ evs,
    make_request W u s =
      (Ok (reply_of (net W (tick s) u)),
       {| tick := S (tick s); disk := disk s; failed_file := failed_file s;
          trace := trace s ++ EvRequest u :: evs |})
    ∧ Forall (fun e => ∃ l, e = EvLog l) evs.
Proof.
  unfold make_request, bind, emit, consult, log, ret, reply_of; cbn.
  destruct (net W (tick s) u) as [st [d |] | |]; cbn;
    try destruct (st =? 200); cbn; rewrite <- ?app_assoc; cbn;
    eexists; (split; [reflexivity |]); repeat constructor; eauto.
Qed.

Lemma filter_none {A : Type} (P : A → Prop) `{∀ x, Decision (P x)}
    (l : list A) :
  (∀ x, x ∈ l → ¬ P x) → filter P l = [].
Proof.
  induction l as [| x l IH]; intros Hl; [reflexivity |].
  rewrite filter_cons_False; [| apply Hl; left].
  apply IH. intros y Hy. apply Hl. now right.
Qed.

(** C6: a resolution batch over codes that are all in the failure set or
    already have a location artifact on disk issues no request at all (the
    state, trace included, is untouched) and returns an empty map of newly
    resolved codes together with the failure set it was given. *)
Theorem scrape_location_batch_idempotent
    (codes : list string) (failed_codes : gset string) (s : State) :
  (∀ c, c ∈ codes → c ∈ failed_codes ∨ file_exists (disk s) c) →
  scrape_location_batch W codes failed_codes s = (Ok ([], failed_codes), s).
Proof.
  intros H. unfold scrape_location_batch, bind, get_state.
  rewrite filter_none; [reflexivity |].
  intros c Hc [Hf He]. destruct (H c Hc); contradiction.
Qed.


End Requests.

(** ** Isolation inside a batch *)

Section Isolation.
Variable W : Oracle.


Lemma same_world_trans s1 s2 s3 : same_world s1 s2 → same_world s2 s3 → same_world s1 s3.
Proof. intros (?&?&?) (?&?&?). repeat split; congruence. Qed.






Lemma gather_requests {A : Type} (f : A → url) (codes : list A) (s : State) :
  ∃ s',
    gather ((fun c => make_request W (f c)) <$> codes) s
    = (Ok (imap (fun i c => GRet (reply_of (net W (tick s + i)%nat (f c)))) codes),
       s')
    ∧ tick s' = (tick s + length codes)%nat
    ∧ disk s' = disk s ∧ failed_file s' = failed_file s.
Proof.
  revert s. induction codes as [| c codes IH]; intros s; cbn [fmap list_fmap gather imap].
  - exists s. cbn. rewrite Nat.add_0_r. auto.
  - destruct (make_request_spec W (f c) s) as (evs & E & _).
    cbn [fmap list_fmap gather]. rewrite E.
    set (s1 := {| tick := S (tick s) |}).
    destruct (IH s1) as (s' & E' & Ht & Hd & Hf).
    exists s'. unfold bind. change (list_fmap _ _ ?g ?l) with (g <$> l). rewrite E'. cbn.
    split; [| subst s1; cbn in *; repeat split; try congruence; lia].
    unfold ret. do 2 f_equal. rewrite Nat.add_0_r. f_equal.
    apply imap_ext. intros i x _. cbn. subst s1. cbn. do 3 f_equal. lia.
Qed.

End Isolation.

(** ** The polling phase leaves disk and failure file alone *)

#[global] Instance quiet_preorder P : PreOrder (quiet P).
Proof. unfold quiet. apply _. Qed.

Section Polling.
Variable W : Oracle.
Variable P : event → Prop.

Lemma quiet_emit e : P e → moves (quiet P) (emit e).
Proof.
  intros He s. repeat split. exists [e]. split; [reflexivity | now constructor].
Qed.

Lemma quiet_consult {A} (f : nat → A) : moves (quiet P) (consult f).
Proof.
  intros s. repeat split. exists []. cbn. split; [now rewrite app_nil_r | constructor].
Qed.

Lemma quiet_make_request u :
  P (EvRequest u) → (∀ l, P (EvLog l)) → moves (quiet P) (make_request W u).
Proof.
  intros Hu Hl s. destruct (make_request_spec W u s) as (evs & -> & Hevs).
  repeat split. cbn. eexists; split; [reflexivity |].
  constructor; [exact Hu |].
  eapply Forall_impl; [exact Hevs |]. intros e [l ->]. apply Hl.
Qed.

Lemma quiet_save_status code uln t data :
  P (EvSaveStatus code uln t data Written) →
  P (EvSaveStatus code uln t data NotWritten) →
  P (EvSaveStatus code uln t data Truncated) →
  (∀ l, P (EvLog l)) →
  moves (quiet P) (save_status W code uln t data).
Proof.
  intros H1 H2 H3 Hl. unfold save_status.
  apply moves_bind; [apply _ | apply quiet_consult |]. intros o.
  apply moves_bind; [apply _ | apply quiet_emit; destruct o; assumption |]. intros _.
  destruct o; try apply moves_ret; try apply _;
    (apply moves_bind; [apply _ | apply quiet_emit, Hl | intros; apply moves_ret; apply _]).
Qed.

Ltac frame_step :=
  first
    [ apply moves_ret; apply _
    | apply moves_lift; apply _
    | apply quiet_consult
    | apply moves_bind; [apply _ | | intros ] ].

Lemma quiet_process_status_result t item acc :
  (∀ c u d o, P (EvSaveStatus c u t d o)) → (∀ l, P (EvLog l)) →
  moves (quiet P) (process_status_result W t item acc).
Proof.
  intros Hs Hl. destruct item as [[code uln] [| [data st]]], acc as [n cs];
    unfold process_status_result.
  - frame_step; [apply quiet_emit, Hl | frame_step].
  - destruct data;
      try (frame_step; [apply quiet_emit, Hl | frame_step]);
      (frame_step; [apply quiet_save_status; auto |];
       match goal with |- context [if ?b then _ else _] => destruct b end;
       frame_step).
Qed.


Lemma quiet_batch_cooldown batch_num total interval start :
  (∀ d, (0 < d)%Q → P (EvSleep d)) →
  moves (quiet P) (batch_cooldown W batch_num total interval start).
Proof.
  intros Hs. unfold batch_cooldown. destruct (batch_num <? total); [| frame_step].
  frame_step; [apply quiet_consult |].
  destruct (Qlt_le_dec 0 _) as [Hlt | _]; [| frame_step].
  apply quiet_emit, Hs, Hlt.
Qed.

Section Whole.
Hypothesis Hr : ∀ u, P (EvRequest (StatusUrl u)).
Hypothesis Hs : ∀ c u t d o, P (EvSaveStatus c u t d o).
Hypothesis Hp : ∀ c, P (EvParse c).
Hypothesis Hl : ∀ l, P (EvLog l).
Hypothesis Hz : ∀ d, (0 < d)%Q → P (EvSleep d).





End Whole.
End Polling.


(** ** Slicing into batches *)

Section Batches.
Context {A : Type}.






End Batches.

(** ** The requests a computation issues *)

Section Issues.
Variable W : Oracle.















End Issues.

(** ** Dictionaries *)

Section Dicts.

Lemma elem_of_keys_dict_set (k v : string) (d : Py.dict) (c : string) :
  c ∈ Py.keys (Py.dict_set k v d) ↔ c = k ∨ c ∈ Py.keys d.
Proof.
  unfold Py.keys. induction d as [| [k' v'] d IH]; cbn.
  - rewrite list_elem_of_singleton, elem_of_nil. tauto.
  - destruct (String.eqb_spec k' k) as [-> | Hne]; cbn.
    + rewrite !elem_of_cons. tauto.
    + rewrite !elem_of_cons, IH. tauto.
Qed.


Lemma NoDup_keys_dict_set (k v : string) (d : Py.dict) :
  NoDup (Py.keys d) → NoDup (Py.keys (Py.dict_set k v d)).
Proof.
  unfold Py.keys. induction d as [| [k' v'] d IH]; cbn; intros Hd.
  - repeat constructor. apply not_elem_of_nil.
  - apply NoDup_cons in Hd as [Hk' Hd].
    destruct (String.eqb_spec k' k) as [-> | Hne]; cbn.
    + now apply NoDup_cons.
    + apply NoDup_cons. split; [| now apply IH].
      intros Hin. apply (elem_of_keys_dict_set k v d k') in Hin as [-> | Hin];
        contradiction.
Qed.

Lemma elem_of_keys_dict_update (d e : Py.dict) (c : string) :
  c ∈ Py.keys (Py.dict_update d e) ↔ c ∈ Py.keys d ∨ c ∈ Py.keys e.
Proof.
  unfold Py.dict_update. revert d. induction e as [| [k v] e IH]; intros d; cbn.
  - split; [now left | intros [H | H]; [exact H | inversion H]].
  - rewrite IH, elem_of_keys_dict_set. unfold Py.keys. cbn.
    rewrite elem_of_cons. tauto.
Qed.

Lemma NoDup_keys_dict_update (d e : Py.dict) :
  NoDup (Py.keys d) → NoDup (Py.keys (Py.dict_update d e)).
Proof.
  unfold Py.dict_update. revert d. induction e as [| [k v] e IH]; intros d Hd; cbn.
  - exact Hd.
  - apply IH, NoDup_keys_dict_set, Hd.
Qed.



Lemma chunks_Forall_sublist {A : Type} (fuel n : nat) (l : list A) :
  Forall (fun b => b `sublist_of` l) (Py.chunks fuel n l).
Proof.
  revert l. induction fuel as [| fuel IH]; intros l; cbn [Py.chunks]; [constructor |].
  destruct l as [| x l]; [constructor |]. set (xl := x :: l). clearbody xl.
  constructor; [apply sublist_take |].
  eapply Forall_impl; [apply IH |]. intros b Hb. cbn in Hb.
  etransitivity; [exact Hb | apply sublist_drop].
Qed.

Lemma batches_Forall_sublist {A : Type} (size : Z) (l : list A) :
  Forall (fun b => b `sublist_of` l) (Py.batches size l).
Proof.
  unfold Py.batches. destruct (size <=? 0); [constructor |].
  apply chunks_Forall_sublist.
Qed.
End Dicts.

(** ** One cycle of the polling phase *)

Section Cycle.
Variable W : Oracle.



End Cycle.

(** ** Cooldowns *)

Section Cooldowns.
Variable W : Oracle.




End Cooldowns.

(** ** Timestamps of status artifacts *)

Section Stamps.
Variable W : Oracle.

Lemma emitting_mono (P Q : event → Prop) s s' :
  (∀ e, P e → Q e) → emitting P s s' → emitting Q s s'.
Proof.
  intros H (evs & E & F). exists evs. split; [exact E |].
  eapply Forall_impl; eauto.
Qed.

Lemma quiet_emitting P s s' : quiet P s s' → emitting P s s'.
Proof. intros (_ & _ & H). exact H. Qed.

(** C2, amended: the request timestamp is read once per batch, when the
    batch's requests have all come back, and every status artifact written
    for that batch carries it; the batches of one cycle read it at
    different times. *)
Theorem status_batch_single_timestamp (d : Py.dict) (s : State) :
  emitting (stamped (utc_now W (tick s + length d)%nat)) s
           (scrape_machine_status_batch W d s).2.
Proof.
  unfold scrape_machine_status_batch.
  destruct d as [| kv d']; [reflexivity |].
  set (d := kv :: d'). clearbody d. clear kv d'.
  set (t := utc_now W (tick s + length d)%nat).
  unfold bind at 1.
  destruct (gather_requests W (fun kv : string * string => StatusUrl kv.2) d s)
    as (s1 & E & Ht & _).
  assert (Hg : emitting (stamped t) s s1).
  { replace s1 with
      (gather ((fun item => get_machine_status W item.2) <$> d) s).2
      by (unfold get_machine_status; now rewrite E).
    apply quiet_emitting.
    apply (moves_gather (quiet (stamped t))).
    apply Forall_fmap, Forall_forall. intros x _.
    apply quiet_make_request; cbn; auto. }
  unfold get_machine_status. rewrite E. clear E.
  etransitivity; [exact Hg |].
  unfold bind at 1, consult at 1. cbn [fst snd].
  rewrite Ht. fold t.
  match goal with
  | |- emitting _ _ (_ ?s0).2 => transitivity s0
  end.
  { exists []. cbn. split; [now rewrite app_nil_r | constructor]. }
  apply quiet_emitting.
  apply (moves_bind (quiet (stamped t))).
  { apply moves_for_each; [apply _ |]. intros.
    apply quiet_process_status_result; cbn; auto. }
  intros [n cs].
  apply moves_bind; [apply _ | | intros; apply moves_ret; apply _].
  apply moves_for_each; [apply _ |]. intros. now apply quiet_emit.
Qed.
End Stamps.

(** C2 as stated fails: in a cycle of two batches the artifacts of the
    second batch carry a later timestamp than those of the first. *)
Lemma cycle_two_timestamps :
  ¬ cycle_single_timestamp steady_world six_items 900 5 2 450 empty_state.
Proof.
  intros (t & evs & Htr & Hall).
  vm_compute in Htr. subst evs.
  rewrite Forall_forall in Hall.
  assert (H1 : "2024-05-01T10:00:00.0000Z" = t).
  { apply (Hall (EvSaveStatus "W000001" "AB1" "2024-05-01T10:00:00.0000Z"
                   sample_status Written)).
    repeat constructor. }
  assert (H2 : "2024-05-01T10:07:30.0000Z" = t).
  { apply (Hall (EvSaveStatus "W000006" "AB6" "2024-05-01T10:07:30.0000Z"
                   sample_status Written)).
    repeat constructor. }
  congruence.
Qed.

(** ** The polling phase as a whole *)

Section PollingPhase.

Variable W : Oracle.









End PollingPhase.

(** ** The resolution phase *)

#[global] Instance disk_grows_preorder : PreOrder disk_grows.
Proof.
  split; [intros s c H; exact H |].
  intros s1 s2 s3 H1 H2 c H. apply H2, H1, H.
Qed.

#[global] Instance resolving_preorder P : PreOrder (resolving P).
Proof. unfold resolving. apply _. Qed.

Section Resolution.
Variable W : Oracle.

Lemma bind_moves_at {A B : Type} (R : relation State) `{!PreOrder R}
    (m : M A) (k : A → M B) (s : State) :
  R s (m s).2 →
  (∀ a s1, m s = (Ok a, s1) → R s1 (k a s1).2) →
  R s (bind m k s).2.
Proof.
  intros Hm Hk. unfold bind. destruct (m s) as [[a | e] s1]; cbn in *.
  - etransitivity; [exact Hm | now apply Hk].
  - exact Hm.
Qed.

Lemma quiet_resolving P s s' : quiet P s s' → resolving P s s'.
Proof.
  intros (Hd & _ & He). split; [| exact He].
  intros c Hc. unfold keeping in Hd. now rewrite Hd.
Qed.

Lemma resolving_mono (P Q : event → Prop) s s' :
  (∀ e, P e → Q e) → resolving P s s' → resolving Q s s'.
Proof. intros H [Hd He]. split; [exact Hd | eapply emitting_mono; eauto]. Qed.

Lemma resolution_event_mono (f1 f2 : gset string) e :
  f1 ⊆ f2 → resolution_event f2 e → resolution_event f1 e.
Proof.
  intros Hsub. destruct e as [[c | u] | | | | | |]; cbn; auto.
  intros H. etransitivity; eauto.
Qed.

Lemma local_resolution_event failed e :
  local_event e → resolution_event failed e.
Proof. destruct e as [[c | u] | | | | | |]; cbn; auto; contradiction. Qed.

Lemma save_location_post code data s :
  ∃ o, save_location W code data s =
    (Ok (match o with Written => true | _ => false end),
     {| tick := S (tick s);
        disk := match o with
                | Written => <[code := FileJson data]> (disk s)
                | NotWritten => disk s
                | Truncated => <[code := FileGarbage]> (disk s)
                end;
        failed_file := failed_file s;
        trace := trace s ++ EvSaveLocation code data o
                   :: match o with Written => [] | _ => [EvLog LogSaveFailed] end |}).
Proof.
  exists (write_file W (tick s)).
  unfold save_location, bind, consult, emit, put_file, log, ret. cbn.
  destruct (write_file W (tick s)); cbn; rewrite <- ?app_assoc; reflexivity.
Qed.

Lemma file_exists_insert d code f c :
  file_exists d c → file_exists (<[code := f]> d) c.
Proof.
  unfold file_exists. intros H. destruct (decide (code = c)) as [-> | Hne].
  - rewrite lookup_insert_eq. eauto.
  - now rewrite lookup_insert_ne.
Qed.

Lemma file_exists_insert_eq d code f : file_exists (<[code := f]> d) code.
Proof. unfold file_exists. rewrite lookup_insert_eq. eauto. Qed.

Lemma process_location_result_post code r l nf s l' nf' s' :
  process_location_result W (code, r) (l, nf) s = (Ok (l', nf'), s') →
  ((l' = l ∧ nf' = nf ∪ {[code]})
   ∨ (l' = l ∧ nf' = nf)
   ∨ (∃ uln, l' = Py.dict_set code uln l ∧ nf' = nf
             ∧ file_exists (disk s') code))
  ∧ disk_grows s s'
  ∧ failed_file s' = failed_file s
  ∧ emitting local_event s s'.
Proof.
  assert (Hlog : ∀ ll acc,
    (let! _ := log ll in ret acc)%M s = (Ok (l', nf'), s') →
    acc = (l', nf') ∧ disk_grows s s' ∧ failed_file s' = failed_file s
    ∧ emitting local_event s s').
  { intros ll acc [= -> <-]. split; [reflexivity |].
    split; [now intros c Hc |].
    split; [reflexivity |]. exists [EvLog ll]. split; [reflexivity |].
    repeat constructor. }
  unfold process_location_result. destruct r as [| [data st]].
  - intros H. apply Hlog in H as ([= <- <-] & ? & ? & ?). auto 10.
  - destruct (st =? 404).
    { intros H. apply Hlog in H as ([= <- <-] & ? & ? & ?). auto 10. }
    assert (Hsave : ∀ uln,
      (let! saved := save_location W code data in
       if saved then ret (Py.dict_set code uln l, nf) else ret (l, nf))%M s
      = (Ok (l', nf'), s') →
      ((l' = l ∧ nf' = nf ∪ {[code]})
       ∨ (l' = l ∧ nf' = nf)
       ∨ (∃ uln, l' = Py.dict_set code uln l ∧ nf' = nf
                 ∧ file_exists (disk s') code))
      ∧ disk_grows s s' ∧ failed_file s' = failed_file s
      ∧ emitting local_event s s').
    { intros uln. unfold bind. destruct (save_location_post code data s) as (o & ->).
      destruct o; cbn; intros [= <- <- <-]; cbn.
      - split; [right; right; exists uln; repeat split; apply file_exists_insert_eq |].
        split; [intros c Hc; cbn; now apply file_exists_insert |].
        split; [reflexivity |]. eexists; split; [reflexivity | repeat constructor].
      - split; [auto |]. split; [now intros c Hc |].
        split; [reflexivity |]. eexists; split; [reflexivity | repeat constructor].
      - split; [auto |].
        split; [intros c Hc; cbn; now apply file_exists_insert |].
        split; [reflexivity |]. eexists; split; [reflexivity | repeat constructor]. }
    destruct data;
      try (intros H; apply Hlog in H as ([= <- <-] & ? & ? & ?); auto 10; fail);
      (destruct (extract_uln _) as [uln | []];
       [ apply Hsave
       | discriminate
       | intros H; apply Hlog in H as ([= <- <-] & ? & ? & ?); auto 10
       | discriminate
       | discriminate ]).
Qed.

Lemma process_results_post items :
  ∀ l nf s l' nf' s',
    for_each (process_location_result W) items (l, nf) s = (Ok (l', nf'), s') →
    nf ⊆ nf'
    ∧ (∀ c, c ∈ nf' → c ∈ nf ∨ c ∈ items.*1)
    ∧ (∀ c, c ∈ Py.keys l' →
         c ∈ Py.keys l ∨ (c ∈ items.*1 ∧ file_exists (disk s') c))
    ∧ disk_grows s s'
    ∧ failed_file s' = failed_file s
    ∧ emitting local_event s s'
    ∧ (NoDup (items.*1) →
       (∀ c, c ∈ items.*1 → (c ∉ Py.keys l) ∧ (c ∉ nf)) →
       (∀ c, c ∈ Py.keys l → c ∉ nf) →
       ∀ c, c ∈ Py.keys l' → c ∉ nf').
Proof.
  induction items as [| [code r] items IH]; intros l nf s l' nf' s';
    cbn [for_each].
  - intros [= <- <- <-]. split; [reflexivity |].
    split; [auto |]. split; [auto |]. split; [reflexivity |].
    split; [reflexivity |]. split; [reflexivity |]. auto.
  - unfold bind.
    destruct (process_location_result W (code, r) (l, nf) s)
      as [[[l1 nf1] | e] s1] eqn:E1; [| discriminate].
    intros E2.
    apply process_location_result_post in E1 as (Hcase & Hd1 & Hf1 & He1).
    apply IH in E2 as (Hsub & Hnf & Hl & Hd2 & Hf2 & He2 & Hdis).
    assert (Hnf1 : nf ⊆ nf1 ∧ ∀ c, c ∈ nf1 → c ∈ nf ∨ c = code).
    { destruct Hcase as [[_ ->] | [[_ ->] | (u & _ & -> & _)]];
        [| split; [reflexivity | auto] ..].
      split; [apply union_subseteq_l |].
      intros c Hc. apply elem_of_union in Hc as [Hc | Hc]; [auto |].
      apply elem_of_singleton in Hc. auto. }
    assert (Hl1 : ∀ c, c ∈ Py.keys l1 →
                   c ∈ Py.keys l ∨ (c = code ∧ file_exists (disk s1) c)).
    { destruct Hcase as [[-> _] | [[-> _] | (u & -> & _ & Hex)]]; auto.
      intros c Hc. apply elem_of_keys_dict_set in Hc as [-> | Hc]; auto. }
    cbn [fmap list_fmap fst].
    split; [destruct Hnf1 as [H1 _]; etransitivity; eauto |].
    split.
    { intros c Hc. destruct (Hnf c Hc) as [H | H].
      - destruct Hnf1 as [_ H1]. destruct (H1 c H) as [? | ->]; [auto |].
        right. left.
      - right. now right. }
    split.
    { intros c Hc. destruct (Hl c Hc) as [H | [H1 H2]].
      - destruct (Hl1 c H) as [? | [-> Hex]]; [auto |].
        right. split; [left | apply Hd2, Hex].
      - right. split; [now right | exact H2]. }
    split; [etransitivity; eauto |].
    split; [congruence |].
    split; [etransitivity; eauto |].
    intros Hnd Hfresh Hsep.
    apply NoDup_cons in Hnd as [Hcode Hnd].
    assert (Hc0 : (code ∉ Py.keys l) ∧ (code ∉ nf)) by (apply Hfresh; left).
    apply Hdis; [exact Hnd | |].
    + intros c Hc.
      assert (Hne : c ≠ code) by (intros ->; contradiction).
      destruct (Hfresh c) as [Hcl Hcn]; [now right |].
      split.
      * intros Hin. destruct (Hl1 c Hin) as [? | [? _]]; contradiction.
      * intros Hin. destruct Hnf1 as [_ H1].
        destruct (H1 c Hin); contradiction.
    + intros c Hc Hin.
      destruct Hcase as [[-> ->] | [[-> ->] | (u & -> & -> & _)]].
      * apply elem_of_union in Hin as [Hin | Hin].
        -- exact (Hsep c Hc Hin).
        -- apply elem_of_singleton in Hin as ->. now destruct Hc0.
      * exact (Hsep c Hc Hin).
      * apply elem_of_keys_dict_set in Hc as [-> | Hc].
        -- now destruct Hc0.
        -- exact (Hsep c Hc Hin).
Qed.
Lemma resolving_process_location_result item acc :
  moves (resolving local_event) (process_location_result W item acc).
Proof.
  intros s. destruct item as [code r], acc as [l nf].
  destruct (process_location_result W (code, r) (l, nf) s)
    as [[[l' nf'] | e] s'] eqn:E.
  - apply process_location_result_post in E as (_ & Hd & _ & He). now split.
  - cbn. enough (s' = s) as -> by reflexivity.
    revert E. unfold process_location_result.
    destruct r as [| [data st]]; [discriminate |].
    destruct (st =? 404); [discriminate |].
    destruct data; try discriminate;
      (destruct (extract_uln _) as [uln | []];
       [ unfold bind;
         match goal with
         | |- context [save_location W code ?d] =>
             destruct (save_location_post code d s) as (o & ->)
         end;
         destruct o; discriminate
       | | discriminate | | ]; now intros [= _ <-]).
Qed.

Lemma resolving_scrape_location_batch batch failed :
  moves (resolving (resolution_event failed))
        (scrape_location_batch W batch failed).
Proof.
  intros s. unfold scrape_location_batch, bind at 1, get_state.
  destruct (filter (needs_request failed (disk s)) batch)
    as [| c0 rest] eqn:Hreq; [reflexivity |].
  rewrite <- Hreq. clear c0 rest Hreq.
  apply moves_bind; [apply _ | |].
  - apply moves_gather; [apply _ |].
    apply Forall_fmap, Forall_forall. intros c Hc s0.
    apply list_elem_of_filter in Hc as [[Hc _] _].
    apply quiet_resolving, quiet_make_request; cbn; auto.
  - intros results. apply moves_bind; [apply _ | |].
    + apply moves_for_each; [apply _ |]. intros item acc s0.
      eapply resolving_mono; [| apply resolving_process_location_result].
      apply local_resolution_event.
    + intros [l nf]. apply moves_ret. apply _.
Qed.

Lemma scrape_location_batch_post batch failed s l failed' s' :
  scrape_location_batch W batch failed s = (Ok (l, failed'), s') →
  failed ⊆ failed'
  ∧ (∀ c, c ∈ failed' →
       c ∈ failed ∨ (c ∈ batch ∧ ¬ file_exists (disk s) c))
  ∧ (∀ c, c ∈ Py.keys l →
       c ∈ batch ∧ (c ∉ failed) ∧ file_exists (disk s') c)
  ∧ (NoDup batch → ∀ c, c ∈ Py.keys l → c ∉ failed').
Proof.
  unfold scrape_location_batch, bind at 1, get_state.
  destruct (filter (needs_request failed (disk s)) batch)
    as [| c0 rest] eqn:Hreq.
  { intros [= <- <- <-]. split; [reflexivity |]. split; [auto |].
    split; intros; exfalso; eapply not_elem_of_nil; eauto. }
  rewrite <- Hreq. clear c0 rest Hreq.
  set (requested := filter (needs_request failed (disk s)) batch).
  assert (Hrq : ∀ c, c ∈ requested →
                  c ∈ batch ∧ (c ∉ failed) ∧ ¬ file_exists (disk s) c).
  { intros c Hc. apply list_elem_of_filter in Hc as [[? ?] ?]. auto. }
  unfold get_location_data.
  destruct (gather_requests W LocationsUrl requested s) as (s1 & E & _ & Hd1 & _).
  unfold bind at 1. rewrite E. clear E.
  set (results := imap _ requested).
  assert (Hfst : (zip requested results).*1 = requested).
  { apply fst_zip. subst results. now rewrite length_imap. }
  unfold bind.
  destruct (for_each _ _ _ s1) as [[[l1 nf1] | e] s2] eqn:E; [| discriminate].
  intros [= <- <- <-].
  apply process_results_post in E as (Hsub & Hnf & Hl & Hd2 & _ & _ & Hdis).
  rewrite Hfst in *.
  split; [apply union_subseteq_l |].
  split.
  { intros c Hc. apply elem_of_union in Hc as [Hc | Hc]; [auto |].
    destruct (Hnf c Hc) as [H | H]; [now apply not_elem_of_empty in H |].
    right. destruct (Hrq c H) as (? & _ & ?). auto. }
  split.
  { intros c Hc. destruct (Hl c Hc) as [H | [H1 H2]];
      [now apply not_elem_of_nil in H |].
    destruct (Hrq c H1) as (? & ? & _). auto. }
  intros Hnd c Hc Hin.
  apply elem_of_union in Hin as [Hin | Hin].
  - destruct (Hl c Hc) as [H | [H1 _]]; [now apply not_elem_of_nil in H |].
    destruct (Hrq c H1) as (_ & ? & _). contradiction.
  - revert Hin. apply Hdis; [| | | exact Hc].
    + subst requested. now apply NoDup_filter.
    + intros c' _. split; [apply not_elem_of_nil | apply not_elem_of_empty].
    + intros c' H. now apply not_elem_of_nil in H.
Qed.

Lemma batch_cooldown_keeps_disk batch_num total interval start s :
  disk (batch_cooldown W batch_num total interval start s).2 = disk s.
Proof.
  destruct (quiet_batch_cooldown W (fun _ => True) batch_num total interval
              start (fun _ _ => I) s) as (Hd & _).
  exact Hd.
Qed.

Lemma location_batches_post total interval todo :
  ∀ batch_num new failed s new' failed' s',
    location_batches W total interval todo batch_num new failed s
    = (Ok (new', failed'), s') →
    failed ⊆ failed'
    ∧ (∀ c, c ∈ failed' → c ∈ failed ∨ c ∈ concat todo)
    ∧ (Forall NoDup todo →
       (∀ c, c ∈ Py.keys new → file_exists (disk s) c ∧ (c ∉ failed)) →
       ∀ c, c ∈ Py.keys new' → file_exists (disk s') c ∧ (c ∉ failed')).
Proof.
  induction todo as [| b todo IH]; intros batch_num new failed s new' failed' s';
    cbn [location_batches concat].
  - intros [= <- <- <-]. split; [reflexivity |]. auto.
  - unfold bind at 1, time, consult at 1. cbn [fst snd].
    set (s0 := {| tick := S (tick s) |}).
    unfold bind at 1.
    destruct (scrape_location_batch W b failed s0)
      as [[[lb f1] | e] s1] eqn:E1; [| discriminate].
    unfold bind at 1.
    pose proof (batch_cooldown_keeps_disk batch_num total interval
                  (loop_time W (tick s)) s1) as Hd2.
    destruct (batch_cooldown W batch_num total interval _ s1)
      as [[[] | e] s2]; [| discriminate].
    cbn in Hd2. intros E3.
    pose proof (resolving_scrape_location_batch b failed s0) as [Hg1 _].
    rewrite E1 in Hg1. cbn in Hg1.
    apply scrape_location_batch_post in E1 as (Hsub1 & Hf1 & Hl1 & Hdis1).
    apply IH in E3 as (Hsub2 & Hf2 & Hinv).
    split; [etransitivity; eauto |].
    split.
    { intros c Hc. destruct (Hf2 c Hc) as [H | H].
      - destruct (Hf1 c H) as [? | [? _]]; [auto |].
        right. apply elem_of_app. auto.
      - right. apply elem_of_app. auto. }
    intros Hnd Hnew. apply Forall_cons in Hnd as [Hb Hnd].
    apply Hinv; [exact Hnd |].
    intros c Hc. apply elem_of_keys_dict_update in Hc as [Hc | Hc].
    + destruct (Hnew c Hc) as [Hex Hnf]. split.
      * unfold file_exists. rewrite Hd2. apply Hg1. exact Hex.
      * intros Hin. destruct (Hf1 c Hin) as [? | [_ Hno]]; [contradiction |].
        apply Hno. exact Hex.
    + destruct (Hl1 c Hc) as (_ & _ & Hex). split.
      * unfold file_exists. now rewrite Hd2.
      * now apply Hdis1.
Qed.

Lemma resolving_location_batches failed0 total interval todo :
  ∀ batch_num new failed s,
    failed0 ⊆ failed →
    resolving (resolution_event failed0) s
      (location_batches W total interval todo batch_num new failed s).2.
Proof.
  induction todo as [| b todo IH]; intros batch_num new failed s Hsub;
    cbn [location_batches]; [reflexivity |].
  apply bind_moves_at; [apply _ | |].
  { apply quiet_resolving, quiet_consult. }
  intros t s0 _.
  apply bind_moves_at; [apply _ | |].
  { eapply resolving_mono; [| apply resolving_scrape_location_batch].
    intros e. now apply resolution_event_mono. }
  intros [lb f1] s1 E1.
  apply scrape_location_batch_post in E1 as (Hsub1 & _).
  apply bind_moves_at; [apply _ | |].
  { apply quiet_resolving, quiet_batch_cooldown. cbn. auto. }
  intros _ s2 _. apply IH. etransitivity; eauto.
Qed.

Lemma elem_of_concat {A : Type} (x : A) (ls : list (list A)) :
  x ∈ concat ls → ∃ l, x ∈ l ∧ l ∈ ls.
Proof.
  induction ls as [| l ls IH]; cbn [concat]; intros H.
  - now apply not_elem_of_nil in H.
  - apply elem_of_app in H as [H | H].
    + exists l. split; [exact H | left].
    + destruct (IH H) as (l' & ? & ?). exists l'. split; [auto | now right].
Qed.

Lemma resolving_save_failed_codes failed0 failed :
  failed0 ⊆ failed →
  moves (resolving (resolution_event failed0)) (save_failed_codes W failed).
Proof.
  intros Hsub s. unfold save_failed_codes, bind, consult, emit, log,
    put_failed_file. cbn.
  split; [destruct (write_file W (tick s)); now intros c Hc |].
  destruct (write_file W (tick s)); cbn;
    (eexists; split; [rewrite <- ?app_assoc; reflexivity |]);
    repeat constructor; exact Hsub.
Qed.

Lemma phase1_post codes interval_seconds max_concurrent failed s new failed' s' :
  phase1 W codes interval_seconds max_concurrent failed s
  = (Ok (new, failed'), s') →
  failed ⊆ failed'
  ∧ (∀ c, c ∈ failed' → c ∈ failed ∨ c ∈ codes)
  ∧ (NoDup codes → ∀ c, c ∈ Py.keys new → c ∉ failed').
Proof.
  unfold phase1. unfold bind at 1, lift at 1.
  destruct (calculate_batch_parameters _ _ _ _) as [[size interval] | e];
    [| discriminate].
  unfold bind at 1, lift at 1.
  destruct (num_batches _ _) as [total | e]; [| discriminate].
  unfold bind at 1.
  destruct (location_batches _ _ _ _ _ _ _ s)
    as [[[new1 failed1] | e] s1] eqn:E1; [| discriminate].
  unfold bind.
  destruct (save_failed_codes W failed1 s1) as [[[] | e] s2]; [| discriminate].
  intros [= <- <- <-].
  apply location_batches_post in E1 as (Hsub & Hf & Hinv).
  pose proof (batches_Forall_sublist size codes) as Hsl.
  split; [exact Hsub |].
  split.
  { intros c Hc. destruct (Hf c Hc) as [? | H]; [auto |]. right.
    apply elem_of_concat in H as (b & Hcb & Hb).
    rewrite Forall_forall in Hsl. specialize (Hsl b Hb).
    eapply elem_of_submseteq; [exact Hcb | now apply sublist_submseteq]. }
  intros Hnd c Hc. apply Hinv; [| | exact Hc].
  - eapply Forall_impl; [exact Hsl |]. intros b Hb. cbn in Hb.
    eapply sublist_NoDup; eauto.
  - intros c' H. now apply not_elem_of_nil in H.
Qed.

Lemma resolving_phase1 failed0 codes interval_seconds max_concurrent failed s :
  failed0 ⊆ failed →
  resolving (resolution_event failed0) s
    (phase1 W codes interval_seconds max_concurrent failed s).2.
Proof.
  intros Hsub. unfold phase1.
  apply bind_moves_at; [apply _ | reflexivity |].
  intros [size interval] s0 _.
  apply bind_moves_at; [apply _ | reflexivity |]. intros total s1 _.
  apply bind_moves_at; [apply _ | now apply resolving_location_batches |].
  intros [new1 failed1] s2 E.
  apply location_batches_post in E as (Hsub1 & _).
  apply bind_moves_at; [apply _ | | intros; reflexivity].
  apply resolving_save_failed_codes. etransitivity; eauto.
Qed.

Lemma get_existing_locations_keys d codes :
  ∀ acc existing,
    get_existing_locations d codes acc = Ok existing →
    ∀ c, c ∈ Py.keys existing → c ∈ Py.keys acc ∨ file_exists d c.
Proof.
  induction codes as [| code codes IH]; intros acc existing;
    cbn [get_existing_locations].
  - intros [= <-]. auto.
  - destruct (Py.truthy (load_json d code)) eqn:Ht; [| apply IH].
    assert (Hex : file_exists d code).
    { unfold load_json, file_exists in *.
      destruct (d !! code) as [[j |] |]; eauto; discriminate. }
    destruct (extract_uln _) as [uln | []]; try discriminate; [| apply IH].
    intros H c Hc. destruct (IH _ _ H c Hc) as [Hk | ?]; [| auto].
    apply elem_of_keys_dict_set in Hk as [-> | ?]; auto.
Qed.

Lemma resolve_post codes interval_seconds max_concurrent s
    locs failed needing start s' :
  resolve W codes interval_seconds max_concurrent s
  = (Ok (locs, failed, needing, start), s') →
  default ∅ (failed_file s) ⊆ failed
  ∧ (NoDup codes →
     (∀ c, c ∈ default ∅ (failed_file s) → ¬ file_exists (disk s) c) →
     ∀ c, c ∈ failed → c ∉ Py.keys locs).
Proof.
  unfold resolve, load_failed_codes, get_state, time. cbn.
  set (loaded := default ∅ (failed_file s)).
  destruct (get_existing_locations (disk s) codes []) as [existing | e] eqn:Ex;
    [| discriminate].
  set (needing0 := filter _ (filter _ codes)).
  assert (Hneed : ∀ c, c ∈ needing0 → (c ∉ loaded) ∧ (c ∉ Py.keys existing)).
  { intros c Hc. apply list_elem_of_filter in Hc as [H1 Hc].
    apply list_elem_of_filter in Hc as [H2 _]. auto. }
  assert (Hexist : ∀ c, c ∈ Py.keys existing → file_exists (disk s) c).
  { intros c Hc.
    destruct (get_existing_locations_keys _ _ _ _ Ex c Hc) as [H | H];
      [now apply not_elem_of_nil in H | exact H]. }
  destruct needing0 as [| c0 rest] eqn:Hn0.
  { intros [= <- <- <- <- <-]. split; [reflexivity |].
    intros _ Hno c Hc Hin. apply (Hno c Hc), Hexist, Hin. }
  rewrite <- Hn0 in *. clear c0 rest Hn0.
  unfold bind.
  destruct (phase1 _ _ _ _ _ _) as [[[new failed1] | e] s1] eqn:E1;
    [| discriminate].
  intros [= <- <- <- <- <-].
  apply phase1_post in E1 as (Hsub & Hf & Hdis).
  split; [exact Hsub |].
  intros Hnd Hno c Hc Hin.
  apply elem_of_keys_dict_update in Hin as [Hin | Hin].
  - destruct (Hf c Hc) as [H | H].
    + apply (Hno c H), Hexist, Hin.
    + now destruct (Hneed c H).
  - revert Hc. apply Hdis; [| exact Hin].
    subst needing0. now do 2 apply NoDup_filter.
Qed.

Lemma resolving_resolve codes interval_seconds max_concurrent s :
  resolving (resolution_event (default ∅ (failed_file s))) s
    (resolve W codes interval_seconds max_concurrent s).2.
Proof.
  unfold resolve, load_failed_codes, get_state, time. cbn.
  set (loaded := default ∅ (failed_file s)).
  destruct (get_existing_locations (disk s) codes []) as [existing | e];
    [| reflexivity].
  set (s0 := {| tick := S (tick s) |}).
  assert (H0 : resolving (resolution_event loaded) s s0).
  { apply (quiet_resolving _ s s0), (quiet_consult _ (loop_time W) s). }
  destruct (filter _ (filter _ codes)) as [| c0 rest]; [exact H0 |].
  etransitivity; [exact H0 |].
  apply bind_moves_at; [apply _ | now apply resolving_phase1 |].
  intros [new failed1] s2 _. reflexivity.
Qed.
End Resolution.

(** ** The failure set across a run *)



(** C9: a resolution batch and the loop over the batches return a
    superset of the failure set they were given; the failure set at the end
    of resolution is a superset of the set loaded at startup, and so is
    every set flushed to storage during the run. *)
Theorem failure_set_grows (W : Oracle) :
  (∀ codes failed s,
     match (scrape_location_batch W codes failed s).1 with
     | Ok (_, failed') => failed ⊆ failed'
     | Raise _ => True
     end)
  ∧ (∀ total interval todo batch_num new failed s,
       match (location_batches W total interval todo batch_num new failed s).1
       with
       | Ok (_, failed') => failed ⊆ failed'
       | Raise _ => True
       end)
  ∧ (∀ codes interval_seconds max_concurrent s,
       let loaded := default ∅ (failed_file s) in
       let r := resolve W codes interval_seconds max_concurrent s in
       match r.1 with
       | Ok (_, failed', _, _) => loaded ⊆ failed'
       | Raise _ => True
       end
       ∧ ∃ evs, trace r.2 = trace s ++ evs
                ∧ ∀ flushed o, EvSaveFailedCodes flushed o ∈ evs →
                               loaded ⊆ flushed).
Proof.
  split; [| split].
  - intros codes failed s.
    destruct (scrape_location_batch W codes failed s)
      as [[[l failed'] | e] s'] eqn:E; [| exact I].
    now apply scrape_location_batch_post in E as [H _].
  - intros total interval todo batch_num new failed s.
    destruct (location_batches W total interval todo batch_num new failed s)
      as [[[l failed'] | e] s'] eqn:E; [| exact I].
    now apply location_batches_post in E as [H _].
  - intros codes interval_seconds max_concurrent s. cbn zeta. split.
    + destruct (resolve W codes interval_seconds max_concurrent s)
        as [[[[[locs failed'] needing] start] | e] s'] eqn:E; [| exact I].
      now apply resolve_post in E as [H _].
    + destruct (resolving_resolve W codes interval_seconds max_concurrent s)
        as [_ (evs & E & F)].
      exists evs. split; [exact E |]. intros flushed o Hin.
      rewrite Forall_forall in F. exact (F _ Hin).
Qed.

(** ** The theorems at work *)

Lemma scrape_location_batch_idempotent_witness :
  (∀ c, c ∈ ["W000001"] →
        c ∈ ({["W000001"]} : gset string) ∨ file_exists (disk warm_state) c)
  ∧ scrape_location_batch steady_world ["W000001"] {["W000001"]} warm_state
    = (Ok ([], {["W000001"]}), warm_state).
Proof.
  assert (H : ∀ c, c ∈ ["W000001"] →
    c ∈ ({["W000001"]} : gset string) ∨ file_exists (disk warm_state) c).
  { intros c Hc. left. apply list_elem_of_singleton in Hc as ->.
    now apply elem_of_singleton. }
  split; [exact H |].
  exact (scrape_location_batch_idempotent steady_world _ _ _ H).
Defined.



Local Open Scope m_scope.

(** ** Sizes of the batches *)

Section Slices.

Context {A : Type}.






End Slices.

(** ** The failure file and the planner's errors *)

Section Startup.

Variable W : Oracle.

(** X13. [load_failed_codes] after [save_failed_codes]: the set that
    was saved when the write succeeds, the set of the old file when the
    write fails before the file is opened, and the empty set when it fails
    after the file was truncated.  Location artifacts are not touched. *)
Theorem failed_codes_round_trip (failed : gset string) (s : State) :
  ∃ s',
    (let! _ := save_failed_codes W failed in load_failed_codes) s
    = (Ok (match write_file W (tick s) with
           | Written => failed
           | NotWritten => default ∅ (failed_file s)
           | Truncated => ∅
           end), s')
    ∧ disk s' = disk s.
Proof.
  unfold save_failed_codes, load_failed_codes, bind, consult, emit,
    put_failed_file, log, get_state, ret. cbn.
  destruct (write_file W (tick s)); cbn; eauto.
Qed.


End Startup.

(** ** Reading location artifacts back *)

Section Existing.


Lemma extract_uln_truthy (data : Py.json) (uln : string) :
  extract_uln data = Ok uln → Py.truthy data = true.
Proof.
  destruct data as [| | | | | fields]; try discriminate.
  destruct fields; [discriminate | reflexivity].
Qed.

Lemma elem_of_dict_set (k v : string) (d : Py.dict) (c u : string) :
  (c, u) ∈ Py.dict_set k v d → (c = k ∧ u = v) ∨ (c, u) ∈ d.
Proof.
  induction d as [| [k' v'] d IH]; cbn [Py.dict_set].
  - intros [= -> ->]%list_elem_of_singleton. auto.
  - destruct (String.eqb_spec k' k) as [-> | Hne].
    + intros [[= -> ->] | H]%elem_of_cons; [auto |].
      right. now right.
    + intros [[= -> ->] | H]%elem_of_cons; [right; left |].
      destruct (IH H) as [? | ?]; [auto |]. right. now right.
Qed.

Lemma get_existing_locations_sound d codes :
  ∀ acc existing,
    get_existing_locations d codes acc = Ok existing →
    (∀ c u, (c, u) ∈ acc → extract_uln (load_json d c) = Ok u) →
    ∀ c u, (c, u) ∈ existing → extract_uln (load_json d c) = Ok u.
Proof.
  induction codes as [| code codes IH]; intros acc existing;
    cbn [get_existing_locations].
  - now intros [= <-].
  - destruct (Py.truthy (load_json d code)); [| apply IH].
    destruct (extract_uln _) as [uln | []] eqn:Eu; try discriminate;
      [| apply IH].
    intros H Hacc. apply (IH _ _ H).
    intros c u [[-> ->] | Hin]%elem_of_dict_set; auto.
Qed.

Lemma get_existing_locations_grows d codes :
  ∀ acc existing,
    get_existing_locations d codes acc = Ok existing →
    ∀ c, c ∈ Py.keys acc → c ∈ Py.keys existing.
Proof.
  induction codes as [| code codes IH]; intros acc existing;
    cbn [get_existing_locations].
  - now intros [= <-].
  - destruct (Py.truthy (load_json d code)); [| apply IH].
    destruct (extract_uln _) as [uln | []]; try discriminate; [| apply IH].
    intros H c Hc. apply (IH _ _ H). apply elem_of_keys_dict_set. auto.
Qed.

Lemma get_existing_locations_complete d codes :
  ∀ acc existing,
    get_existing_locations d codes acc = Ok existing →
    ∀ c uln, c ∈ codes → extract_uln (load_json d c) = Ok uln →
             c ∈ Py.keys existing.
Proof.
  induction codes as [| code codes IH]; intros acc existing;
    cbn [get_existing_locations].
  - intros _ c uln Hc. now apply not_elem_of_nil in Hc.
  - intros H c uln Hc Hu.
    apply elem_of_cons in Hc as [-> | Hc].
    + rewrite (extract_uln_truthy _ _ Hu), Hu in H.
      apply (get_existing_locations_grows _ _ _ _ H).
      apply elem_of_keys_dict_set. auto.
    + destruct (Py.truthy (load_json d code)); [| eapply IH; eauto].
      destruct (extract_uln (load_json d code)) as [u | []]; try discriminate;
        eapply IH; eauto.
Qed.

Lemma get_existing_locations_usable d codes :
  ∀ acc existing,
    get_existing_locations d codes acc = Ok existing →
    ∀ c, c ∈ Py.keys existing →
      c ∈ Py.keys acc
      ∨ (c ∈ codes ∧ ∃ uln, extract_uln (load_json d c) = Ok uln).
Proof.
  induction codes as [| code codes IH]; intros acc existing;
    cbn [get_existing_locations].
  - intros [= <-]. auto.
  - assert (Hrest : ∀ acc',
      get_existing_locations d codes acc' = Ok existing →
      (∀ c, c ∈ Py.keys acc' →
         c ∈ Py.keys acc
         ∨ (c ∈ code :: codes ∧ ∃ uln, extract_uln (load_json d c) = Ok uln)) →
      ∀ c, c ∈ Py.keys existing →
        c ∈ Py.keys acc
        ∨ (c ∈ code :: codes ∧ ∃ uln, extract_uln (load_json d c) = Ok uln)).
    { intros acc' H Hacc c Hc.
      destruct (IH _ _ H c Hc) as [Hk | [Hin Hu]]; [auto |].
      right. split; [now right | exact Hu]. }
    destruct (Py.truthy (load_json d code)); [| intros H; apply (Hrest _ H); auto].
    destruct (extract_uln _) as [uln | []] eqn:Eu; try discriminate;
      [| intros H; apply (Hrest _ H); auto].
    intros H. apply (Hrest _ H). intros c Hc.
    apply elem_of_keys_dict_set in Hc as [-> | ?]; [| auto].
    right. split; [left | eauto].
Qed.

Lemma get_existing_locations_NoDup d codes :
  ∀ acc existing,
    NoDup (Py.keys acc) →
    get_existing_locations d codes acc = Ok existing →
    NoDup (Py.keys existing).
Proof.
  induction codes as [| code codes IH]; intros acc existing Hnd;
    cbn [get_existing_locations].
  - now intros [= <-].
  - destruct (Py.truthy (load_json d code)); [| now apply IH].
    destruct (extract_uln _) as [uln | []]; try discriminate;
      [| now apply IH].
    apply IH. now apply NoDup_keys_dict_set.
Qed.

(** X14. The map that [get_existing_locations] returns has no repeated
    key; its keys are the codes of the list whose artifact can be loaded
    and holds an identifier; and each key is mapped to the identifier of
    its artifact. *)
Theorem existing_locations_characterised
    (d : gmap string file) (location_codes : list string)
    (existing : Py.dict) :
  get_existing_locations d location_codes [] = Ok existing →
  NoDup (Py.keys existing)
  ∧ (∀ c, c ∈ Py.keys existing
          ↔ c ∈ location_codes
            ∧ ∃ uln, extract_uln (load_json d c) = Ok uln)
  ∧ (∀ c uln, (c, uln) ∈ existing → extract_uln (load_json d c) = Ok uln).
Proof.
  intros H. split; [| split].
  - eapply get_existing_locations_NoDup; [| exact H]. constructor.
  - intros c. split.
    + intros Hc.
      destruct (get_existing_locations_usable _ _ _ _ H c Hc) as [Hk | ?];
        [now apply not_elem_of_nil in Hk | assumption].
    + intros [Hc [uln Hu]].
      exact (get_existing_locations_complete _ _ _ _ H c uln Hc Hu).
  - apply (get_existing_locations_sound _ _ _ _ H).
    intros c u Hin. now apply not_elem_of_nil in Hin.
Qed.

Lemma getitem_raises (v : Py.json) (key : string) (e : exn) :
  Py.getitem v key = Raise e → e = KeyError ∨ e = TypeError.
Proof.
  destruct v; cbn; try (intros [= <-]; auto).
  destruct (Py.obj_lookup key fields); [discriminate | intros [= <-]; auto].
Qed.

Lemma extract_uln_raises (data : Py.json) (e : exn) :
  extract_uln data = Raise e →
  e = KeyError ∨ e = TypeError ∨ e = AttributeError.
Proof.
  unfold extract_uln, rbind.
  destruct (Py.getitem data "location") as [location | e1] eqn:E1.
  - destruct (Py.getitem location "uln") as [uln | e2] eqn:E2.
    + destruct uln; cbn; try discriminate; intros [= <-]; auto.
    + intros [= <-]. apply getitem_raises in E2 as [-> | ->]; auto.
  - intros [= <-]. apply getitem_raises in E1 as [-> | ->]; auto.
Qed.

Lemma get_existing_locations_raises (d : gmap string file)
    (location_codes : list string) (code : string) (e : exn) :
  code ∈ location_codes →
  Py.truthy (load_json d code) = true →
  extract_uln (load_json d code) = Raise e → e ≠ KeyError →
  ∀ acc, ∃ e', get_existing_locations d location_codes acc = Raise e'
               ∧ (e' = TypeError ∨ e' = AttributeError).
Proof.
  intros Hin Ht Hx Hk.
  induction location_codes as [| c rest IH]; intros acc.
  - now apply not_elem_of_nil in Hin.
  - cbn [get_existing_locations].
    destruct (Py.truthy (load_json d c)) eqn:Htc.
    + destruct (extract_uln (load_json d c)) as [uln | e0] eqn:Ec.
      * apply elem_of_cons in Hin as [-> | Hin]; [congruence |].
        now apply IH.
      * destruct (extract_uln_raises _ _ Ec) as [-> | [-> | ->]];
          [| eauto | eauto].
        apply elem_of_cons in Hin as [-> | Hin]; [congruence |].
        now apply IH.
    + apply elem_of_cons in Hin as [-> | Hin]; [congruence |].
      now apply IH.
Qed.





End Existing.

(** ** Runs that stop early or only poll *)

Section Runs.

Variable W : Oracle.

Lemma planner_zero_interval {A : Type} (l : list A) (max_concurrent : Z) :
  l ≠ [] →
  calculate_batch_parameters (Py.len l) 0 min_batch_size max_concurrent
  = Raise ZeroDivisionError.
Proof.
  intros Hl. unfold calculate_batch_parameters.
  destruct (Z.eqb_spec (Py.len l) 0) as [E |]; [| reflexivity].
  destruct l; [congruence | discriminate].
Qed.

(** [run_bulk_scraper] up to the point where the phases part. *)
Lemma run_bulk_scraper_unfold
    (location_codes : list string) (interval_minutes max_concurrent : Z)
    (n : nat) (s : State) :
  run_bulk_scraper W location_codes interval_minutes max_concurrent n s
  = match get_existing_locations (disk s) location_codes [] with
    | Raise e => (Raise e, s)
    | Ok existing =>
        let failed := default ∅ (failed_file s) in
        let needing :=
          filter (fun code => code ∉ Py.keys existing)
                 (filter (fun code => code ∉ failed) location_codes) in
        let start := loop_time W (tick s) in
        let s1 := {| tick := S (tick s); disk := disk s;
                     failed_file := failed_file s; trace := trace s |} in
        match needing with
        | [] =>
            poll W existing [] start (interval_minutes * 60) max_concurrent n s1
        | _ =>
            (let! (new_locations, _) :=
               phase1 W needing (interval_minutes * 60) max_concurrent failed in
             poll W (Py.dict_update existing new_locations) needing start
                  (interval_minutes * 60) max_concurrent n) s1
        end
    end.
Proof.
  unfold run_bulk_scraper, resolve, load_failed_codes.
  unfold bind at 1 2 3 4. unfold get_state at 1 2, ret at 1, lift at 1.
  cbn beta iota.
  destruct (get_existing_locations (disk s) location_codes [])
    as [existing | e]; [| reflexivity].
  unfold bind at 1, time, consult. cbn beta iota zeta.
  destruct (filter _ (filter _ location_codes)) as [| c0 needing];
    [reflexivity |].
  unfold bind.
  destruct (phase1 _ _ _ _ _ _) as [[[new failed'] | e] s2]; reflexivity.
Qed.

(** X15. A run with an interval of zero minutes issues no request,
    writes nothing and does not sleep.  It stops with an exception
    ([ZeroDivisionError] if the artifacts on disk could be read), unless
    no artifact holds a location and every code is in the failure file:
    then it logs that there are no valid locations and returns. *)
Theorem zero_interval_run_does_nothing
    (location_codes : list string) (max_concurrent : Z) (n : nat) (s : State) :
  let r := run_bulk_scraper W location_codes 0 max_concurrent n s in
  disk r.2 = disk s ∧ failed_file r.2 = failed_file s
  ∧ ((∃ e, r.1 = Raise e ∧ trace r.2 = trace s
           ∧ ∀ existing,
               get_existing_locations (disk s) location_codes [] = Ok existing →
               e = ZeroDivisionError)
     ∨ (r.1 = Ok tt ∧ trace r.2 = trace s ++ [EvLog LogNoValidLocations]
        ∧ get_existing_locations (disk s) location_codes [] = Ok []
        ∧ ∀ c, c ∈ location_codes → c ∈ default ∅ (failed_file s))).
Proof.
  intros r. subst r. rewrite run_bulk_scraper_unfold. change (0 * 60) with 0.
  destruct (get_existing_locations (disk s) location_codes [])
    as [existing | e] eqn:Ee.
  2:{ do 2 (split; [reflexivity |]). left. exists e.
      do 2 (split; [reflexivity |]). discriminate. }
  cbv zeta.
  destruct (filter _ (filter _ location_codes)) as [| c0 needing] eqn:En.
  - unfold poll. destruct existing as [| kv existing].
    + do 2 (split; [reflexivity |]). right.
      do 3 (split; [reflexivity |]).
      intros c Hc.
      destruct (decide (c ∈ default ∅ (failed_file s))) as [| Hn];
        [assumption |].
      assert (Hin : c ∈ filter (fun code => code ∉ Py.keys [])
                (filter (fun code => code ∉ default ∅ (failed_file s))
                        location_codes)).
      { apply list_elem_of_filter. split; [apply not_elem_of_nil |].
        apply list_elem_of_filter. auto. }
      rewrite En in Hin. now apply not_elem_of_nil in Hin.
    + unfold bind, consult, ret, lift, time.
      rewrite planner_zero_interval by discriminate. cbn.
      do 2 (split; [reflexivity |]). left. exists ZeroDivisionError. auto.
  - unfold phase1, bind, lift. rewrite planner_zero_interval by discriminate.
    cbn. do 2 (split; [reflexivity |]). left. exists ZeroDivisionError. auto.
Qed.

(** X16. When no code has a usable location artifact and every code is
    in the failure file, [run_bulk_scraper] returns after one log line,
    whatever the interval and the batch bound are: no request, no write,
    no sleep. *)
Theorem run_without_work
    (location_codes : list string) (interval_minutes max_concurrent : Z)
    (n : nat) (s : State) :
  get_existing_locations (disk s) location_codes [] = Ok [] →
  (∀ c, c ∈ location_codes → c ∈ default ∅ (failed_file s)) →
  run_bulk_scraper W location_codes interval_minutes max_concurrent n s
  = (Ok tt,
     {| tick := S (tick s); disk := disk s; failed_file := failed_file s;
        trace := trace s ++ [EvLog LogNoValidLocations] |}).
Proof.
  intros He Hf. rewrite run_bulk_scraper_unfold, He. cbv zeta.
  rewrite (filter_none (fun code => code ∉ default ∅ (failed_file s)))
    by (intros c Hc Hn; exact (Hn (Hf c Hc))).
  reflexivity.
Qed.

(** X17. One location artifact that holds JSON of the wrong shape (not
    a dictionary where one is expected, or an identifier that is not a
    string) stops [run_bulk_scraper] with a [TypeError] or an
    [AttributeError] before anything else happens: the state is
    untouched. *)
Theorem malformed_artifact_stops_run
    (location_codes : list string) (interval_minutes max_concurrent : Z)
    (n : nat) (s : State) (code : string) (e : exn) :
  code ∈ location_codes →
  Py.truthy (load_json (disk s) code) = true →
  extract_uln (load_json (disk s) code) = Raise e → e ≠ KeyError →
  ∃ e', run_bulk_scraper W location_codes interval_minutes max_concurrent n s
        = (Raise e', s)
        ∧ (e' = TypeError ∨ e' = AttributeError).
Proof.
  intros Hin Ht Hx Hk.
  destruct (get_existing_locations_raises _ _ _ _ Hin Ht Hx Hk [])
    as (e' & He & Hk').
  exists e'. split; [| exact Hk'].
  now rewrite run_bulk_scraper_unfold, He.
Qed.


End Runs.

(** ** What a batch writes is what a restart reads *)

Section ReadBack.

Variable W : Oracle.











End ReadBack.

(** ** Codes whose artifact is on disk *)

Section Cached.

Variable W : Oracle.
Variable c : string.

Lemma local_other_than_request e : local_event e → other_than_request c e.
Proof. intros H ->. exact H. Qed.

Lemma filter_idemp {A : Type} (P : A → Prop) `{∀ x, Decision (P x)}
    (l : list A) :
  filter P (filter P l) = filter P l.
Proof.
  induction l as [| x l IH]; [reflexivity |].
  rewrite filter_cons. destruct (decide (P x)) as [Hp | Hp]; [| exact IH].
  rewrite filter_cons, decide_True by exact Hp. now rewrite IH.
Qed.

Lemma scrape_location_batch_requested batch failed s :
  scrape_location_batch W batch failed s
  = scrape_location_batch W (filter (needs_request failed (disk s)) batch)
                          failed s.
Proof.
  unfold scrape_location_batch, bind at 1 4, get_state.
  now rewrite filter_idemp.
Qed.

Lemma cached_scrape_location_batch batch failed s :
  file_exists (disk s) c →
  resolving (other_than_request c) s (scrape_location_batch W batch failed s).2.
Proof.
  intros Hex. unfold scrape_location_batch, bind at 1, get_state.
  destruct (filter (needs_request failed (disk s)) batch)
    as [| c0 rest] eqn:Hreq; [reflexivity |].
  rewrite <- Hreq. clear c0 rest Hreq.
  apply moves_bind; [apply _ | |].
  - apply moves_gather; [apply _ |].
    apply Forall_fmap, Forall_forall. intros c' Hc s0.
    apply list_elem_of_filter in Hc as [[_ Hc] _].
    apply quiet_resolving, quiet_make_request.
    + intros [= ->]. contradiction.
    + discriminate.
  - intros results. apply moves_bind; [apply _ | |].
    + apply moves_for_each; [apply _ |]. intros item acc s0.
      eapply resolving_mono; [| apply resolving_process_location_result].
      apply local_other_than_request.
    + intros [l nf]. apply moves_ret. apply _.
Qed.

Lemma cached_scrape_location_batch_keys batch failed s l failed' s' :
  file_exists (disk s) c →
  scrape_location_batch W batch failed s = (Ok (l, failed'), s') →
  c ∉ Py.keys l.
Proof.
  intros Hex E Hc. rewrite scrape_location_batch_requested in E.
  apply scrape_location_batch_post in E as (_ & _ & Hl & _).
  destruct (Hl c Hc) as (Hin & _).
  apply list_elem_of_filter in Hin as [[_ Hno] _]. contradiction.
Qed.

Lemma cached_location_batches total interval todo :
  ∀ batch_num new failed s,
    file_exists (disk s) c →
    resolving (other_than_request c) s
      (location_batches W total interval todo batch_num new failed s).2.
Proof.
  induction todo as [| b todo IH]; intros batch_num new failed s Hex;
    cbn [location_batches]; [reflexivity |].
  apply bind_moves_at; [apply _ | |].
  { apply quiet_resolving, quiet_consult. }
  intros t s0 E0.
  assert (Hex0 : file_exists (disk s0) c).
  { unfold time, consult in E0. now injection E0 as _ <-. }
  pose proof (cached_scrape_location_batch b failed s0 Hex0) as H1.
  apply bind_moves_at; [apply _ | exact H1 |].
  intros [lb f1] s1 E1. rewrite E1 in H1. destruct H1 as [Hg1 _]. cbn in Hg1.
  pose proof (batch_cooldown_keeps_disk W batch_num total interval t s1) as Hd2.
  apply bind_moves_at; [apply _ | |].
  { apply quiet_resolving, quiet_batch_cooldown. discriminate. }
  intros [] s2 E2. rewrite E2 in Hd2. cbn in Hd2.
  apply IH. unfold file_exists. rewrite Hd2. now apply Hg1.
Qed.

Lemma cached_location_batches_keys total interval todo :
  ∀ batch_num new failed s new' failed' s',
    file_exists (disk s) c →
    c ∉ Py.keys new →
    location_batches W total interval todo batch_num new failed s
    = (Ok (new', failed'), s') →
    c ∉ Py.keys new'.
Proof.
  induction todo as [| b todo IH]; intros batch_num new failed s new' failed' s'
    Hex Hnew; cbn [location_batches].
  - now intros [= <- <- <-].
  - unfold bind at 1, time, consult at 1. cbn [fst snd].
    set (s0 := {| tick := S (tick s) |}).
    unfold bind at 1.
    destruct (scrape_location_batch W b failed s0)
      as [[[lb f1] | e] s1] eqn:E1; [| discriminate].
    unfold bind at 1.
    pose proof (batch_cooldown_keeps_disk W batch_num total interval
                  (loop_time W (tick s)) s1) as Hd2.
    destruct (batch_cooldown W batch_num total interval _ s1)
      as [[[] | e] s2]; [| discriminate].
    cbn in Hd2.
    pose proof (cached_scrape_location_batch b failed s0 Hex) as [Hg1 _].
    rewrite E1 in Hg1. cbn in Hg1.
    apply IH.
    + unfold file_exists. rewrite Hd2. now apply Hg1.
    + intros Hc. apply elem_of_keys_dict_update in Hc as [Hc | Hc];
        [contradiction |].
      exact (cached_scrape_location_batch_keys b failed s0 lb f1 s1 Hex E1 Hc).
Qed.

Lemma cached_save_failed_codes failed :
  moves (resolving (other_than_request c)) (save_failed_codes W failed).
Proof.
  intros s. unfold save_failed_codes, bind, consult, emit, log,
    put_failed_file. cbn.
  split; [destruct (write_file W (tick s)); now intros c' Hc |].
  destruct (write_file W (tick s)); cbn;
    (eexists; split; [rewrite <- ?app_assoc; reflexivity |]);
    repeat constructor; discriminate.
Qed.

Lemma cached_phase1 codes interval_seconds max_concurrent failed s :
  file_exists (disk s) c →
  resolving (other_than_request c) s
    (phase1 W codes interval_seconds max_concurrent failed s).2.
Proof.
  intros Hex. unfold phase1.
  apply bind_moves_at; [apply _ | reflexivity |].
  intros [size interval] s0 [= _ <-].
  apply bind_moves_at; [apply _ | reflexivity |]. intros total s1 [= _ <-].
  apply bind_moves_at; [apply _ | now apply cached_location_batches |].
  intros [new1 failed1] s2 E.
  apply bind_moves_at; [apply _ | | intros; reflexivity].
  apply cached_save_failed_codes.
Qed.

Lemma cached_phase1_keys codes interval_seconds max_concurrent failed s
    new failed' s' :
  file_exists (disk s) c →
  phase1 W codes interval_seconds max_concurrent failed s
  = (Ok (new, failed'), s') →
  c ∉ Py.keys new.
Proof.
  intros Hex. unfold phase1. unfold bind at 1, lift at 1.
  destruct (calculate_batch_parameters _ _ _ _) as [[size interval] | e];
    [| discriminate].
  unfold bind at 1, lift at 1.
  destruct (num_batches _ _) as [total | e]; [| discriminate].
  unfold bind at 1.
  destruct (location_batches _ _ _ _ _ _ _ s)
    as [[[new1 failed1] | e] s1] eqn:E1; [| discriminate].
  unfold bind.
  destruct (save_failed_codes W failed1 s1) as [[[] | e] s2]; [| discriminate].
  intros [= <- <- <-].
  eapply cached_location_batches_keys; [exact Hex | | exact E1].
  apply not_elem_of_nil.
Qed.

(** X21. A code whose location artifact exists on disk is never
    requested by the resolution phase, readable artifact or not; and it
    is polled only if that artifact yields an identifier.  So a code
    whose artifact is unreadable is neither fetched again nor polled. *)
Theorem cached_code_is_never_fetched
    (location_codes : list string) (interval_seconds max_concurrent : Z)
    (s : State) :
  file_exists (disk s) c →
  let r := resolve W location_codes interval_seconds max_concurrent s in
  (∃ evs, trace r.2 = trace s ++ evs ∧ EvRequest (LocationsUrl c) ∉ evs)
  ∧ ∀ locs failed needing start,
      r.1 = Ok (locs, failed, needing, start) →
      c ∈ Py.keys locs →
      ∃ uln, extract_uln (load_json (disk s) c) = Ok uln.
Proof.
  intros Hex r. subst r.
  unfold resolve, load_failed_codes, get_state, time. cbn.
  set (loaded := default ∅ (failed_file s)).
  destruct (get_existing_locations (disk s) location_codes [])
    as [existing | e] eqn:Ex.
  2:{ split; [| discriminate]. exists []. rewrite app_nil_r.
      split; [reflexivity | apply not_elem_of_nil]. }
  set (s0 := {| tick := S (tick s) |}).
  assert (Hold : ∀ c', c' ∈ Py.keys existing →
                   ∃ uln, extract_uln (load_json (disk s) c') = Ok uln).
  { intros c' Hc.
    destruct (get_existing_locations_usable _ _ _ _ Ex c' Hc) as [H | [_ H]];
      [now apply not_elem_of_nil in H | exact H]. }
  assert (Hev : ∀ s', resolving (other_than_request c) s0 s' →
    ∃ evs, trace s' = trace s ++ evs ∧ EvRequest (LocationsUrl c) ∉ evs).
  { intros s' [_ (evs & Ht & Hall)]. exists evs. split; [exact Ht |].
    intros Hin. rewrite Forall_forall in Hall. now apply (Hall _ Hin). }
  destruct (filter _ (filter _ location_codes)) as [| c0 rest].
  { split; [apply Hev; reflexivity |].
    intros locs failed needing start [= <- _ _ _]. apply Hold. }
  pose proof (cached_phase1 (c0 :: rest) interval_seconds max_concurrent
                loaded s0 Hex) as H1.
  unfold bind.
  destruct (phase1 _ _ _ _ _ _) as [[[new failed1] | e] s1] eqn:E1.
  - split; [apply Hev, H1 |].
    intros locs failed needing start [= <- _ _ _] Hc.
    apply elem_of_keys_dict_update in Hc as [Hc | Hc]; [now apply Hold |].
    destruct (cached_phase1_keys _ _ _ _ s0 _ _ _ Hex E1 Hc).
  - split; [apply Hev, H1 | discriminate].
Qed.

End Cached.

(** ** Saving and parsing in a status batch *)

Section StatusBatch.

Variable W : Oracle.

Lemma parsed_in_app evs1 evs2 :
  parsed_in (evs1 ++ evs2) = parsed_in evs1 ++ parsed_in evs2.
Proof. apply omap_app. Qed.

Lemma saved_in_app evs1 evs2 :
  saved_in (evs1 ++ evs2) = saved_in evs1 ++ saved_in evs2.
Proof. apply omap_app. Qed.

Lemma request_or_log_silent evs :
  Forall request_or_log evs → parsed_in evs = [] ∧ saved_in evs = [].
Proof.
  induction 1 as [| e evs He _ [IH1 IH2]]; [auto |].
  unfold parsed_in, saved_in in *. cbn. rewrite IH1, IH2.
  destruct e; try contradiction; auto.
Qed.

Lemma process_status_result_post t code uln r k cs s :
  ∃ s' evs,
    process_status_result W t ((code, uln), r) (k, cs) s
    = (Ok (k + Py.len (saved_in evs), cs ++ saved_in evs), s')
    ∧ trace s' = trace s ++ evs
    ∧ parsed_in evs = []
    ∧ (saved_in evs = [] ∨ saved_in evs = [code]).
Proof.
  assert (Hlog : ∀ ll, ∃ s' evs,
    (let! _ := log ll in ret (k, cs))%M s
    = (Ok (k + Py.len (saved_in evs), cs ++ saved_in evs), s')
    ∧ trace s' = trace s ++ evs
    ∧ parsed_in evs = []
    ∧ (saved_in evs = [] ∨ saved_in evs = [code])).
  { intros ll. eexists _, [EvLog ll]. cbn.
    rewrite Z.add_0_r, app_nil_r. auto. }
  assert (Hsave : ∀ data, ∃ s' evs,
    (let! saved := save_status W code uln t data in
     if saved then ret (k + 1, cs ++ [code]) else ret (k, cs))%M s
    = (Ok (k + Py.len (saved_in evs), cs ++ saved_in evs), s')
    ∧ trace s' = trace s ++ evs
    ∧ parsed_in evs = []
    ∧ (saved_in evs = [] ∨ saved_in evs = [code])).
  { intros data. unfold save_status, bind, consult, emit, log, ret. cbn.
    destruct (write_file W (tick s)); cbn.
    - eexists _, [EvSaveStatus code uln t data Written]. cbn. auto.
    - eexists _, [EvSaveStatus code uln t data NotWritten; EvLog LogSaveFailed].
      cbn. rewrite Z.add_0_r, app_nil_r, <- app_assoc. auto.
    - eexists _, [EvSaveStatus code uln t data Truncated; EvLog LogSaveFailed].
      cbn. rewrite Z.add_0_r, app_nil_r, <- app_assoc. auto. }
  unfold process_status_result. destruct r as [| [data st]]; [apply Hlog |].
  destruct data; solve [apply Hlog | apply Hsave].
Qed.

Lemma process_status_results_post t items :
  ∀ k cs s,
    ∃ s' evs,
      for_each (process_status_result W t) items (k, cs) s
      = (Ok (k + Py.len (saved_in evs), cs ++ saved_in evs), s')
      ∧ trace s' = trace s ++ evs
      ∧ parsed_in evs = []
      ∧ saved_in evs `sublist_of` items.*1.*1.
Proof.
  induction items as [| [[code uln] r] items IH]; intros k cs s;
    cbn [for_each].
  - exists s, []. cbn. rewrite Z.add_0_r, !app_nil_r. auto.
  - destruct (process_status_result_post t code uln r k cs s)
      as (s1 & evs1 & E1 & Ht1 & Hp1 & Hs1).
    destruct (IH (k + Py.len (saved_in evs1)) (cs ++ saved_in evs1) s1)
      as (s2 & evs2 & E2 & Ht2 & Hp2 & Hs2).
    exists s2, (evs1 ++ evs2). unfold bind. rewrite E1, E2.
    rewrite saved_in_app, parsed_in_app, Hp1, Hp2, Ht2, Ht1.
    unfold Py.len. rewrite length_app, !app_assoc.
    split; [do 3 f_equal; lia |]. split; [reflexivity |].
    split; [reflexivity |]. cbn [fmap list_fmap fst].
    destruct Hs1 as [-> | ->]; cbn [app].
    + now apply sublist_cons.
    + now apply sublist_skip.
Qed.

Lemma parse_each_post codes s :
  for_each (fun code (_ : unit) => parse_and_cleanup_location_data code)
           codes tt s
  = (Ok tt,
     {| tick := tick s; disk := disk s; failed_file := failed_file s;
        trace := trace s ++ (EvParse <$> codes) |}).
Proof.
  revert s. induction codes as [| code codes IH]; intros s; cbn [for_each].
  - cbn. rewrite app_nil_r. now destruct s.
  - unfold bind, parse_and_cleanup_location_data, emit. rewrite IH. cbn.
    now rewrite <- app_assoc.
Qed.

(** X22. [scrape_machine_status_batch] always returns; the count it
    returns is the number of status artifacts it wrote; it calls
    [parse_and_cleanup_location_data] after all of its requests and saves,
    once for each artifact written, in the order of the writes; and the
    codes concerned are keys of the batch, in the order of the batch. *)
Theorem status_batch_parses_what_it_saved (d : Py.dict) (s : State) :
  ∃ s' evs,
    scrape_machine_status_batch W d s = (Ok (Py.len (saved_in evs)), s')
    ∧ trace s' = trace s ++ evs ++ (EvParse <$> saved_in evs)
    ∧ parsed_in evs = []
    ∧ saved_in evs `sublist_of` Py.keys d.
Proof.
  unfold scrape_machine_status_batch.
  destruct d as [| kv d0] eqn:Hd.
  { exists s, []. cbn. rewrite app_nil_r. auto using sublist_nil. }
  rewrite <- Hd. clear kv d0 Hd.
  unfold get_machine_status.
  destruct (gather_requests W (fun item : string * string => StatusUrl item.2)
              d s) as (s1 & E & _ & _ & _).
  assert (Hq : quiet request_or_log s s1).
  { replace s1 with
      (gather ((fun item : string * string =>
                  make_request W (StatusUrl item.2)) <$> d) s).2
      by now rewrite E.
    apply moves_gather; [apply _ |].
    apply Forall_fmap, Forall_forall. intros item _.
    apply quiet_make_request; cbn; auto. }
  destruct Hq as (_ & _ & evs0 & Ht0 & Hall0).
  apply request_or_log_silent in Hall0 as [Hp0 Hs0].
  unfold bind at 1. rewrite E. clear E.
  set (results := imap _ d).
  assert (Hfst : (zip d results).*1 = d).
  { apply fst_zip. subst results. now rewrite length_imap. }
  unfold bind at 1, consult at 1. cbn [fst snd].
  set (s2 := {| tick := S (tick s1) |}).
  destruct (process_status_results_post (utc_now W (tick s1))
              (zip d results) 0 [] s2) as (s3 & evs1 & E1 & Ht1 & Hp1 & Hs1).
  unfold bind at 1. rewrite E1. clear E1.
  unfold bind, ret. rewrite parse_each_post. cbn [app Z.add].
  eexists. exists (evs0 ++ evs1).
  rewrite saved_in_app, parsed_in_app, Hp0, Hs0, Hp1. cbn [app].
  split; [reflexivity |]. cbn [trace]. rewrite Ht1. subst s2. cbn [trace].
  rewrite Ht0, <- !app_assoc. rewrite Hfst in Hs1. auto.
Qed.

End StatusBatch.

(** ** Location codes *)

Import Codes.

Section CodeStrings.

Lemma append_nil_l (b : string) : "" +:+ b = b.
Proof. reflexivity. Qed.

Lemma append_cons (c : ascii) (a b : string) :
  String c a +:+ b = String c (a +:+ b).
Proof. reflexivity. Qed.

Ltac by_cases_on_char c :=
  destruct c as [[] [] [] [] [] [] [] []]; try reflexivity; try discriminate.

Lemma upper_char_idem (c : ascii) : upper_char (upper_char c) = upper_char c.
Proof. by_cases_on_char c. Qed.

Lemma upper_char_upper (c : ascii) : is_upper c = true → upper_char c = c.
Proof. by_cases_on_char c. Qed.

Lemma upper_char_digit (c : ascii) : is_digit c = true → upper_char c = c.
Proof. by_cases_on_char c. Qed.

Lemma digit_not_upper (c : ascii) : is_digit c = true → is_upper c = false.
Proof. by_cases_on_char c. Qed.

Lemma upper_idem (s : string) : upper (upper s) = upper s.
Proof.
  induction s as [| c s IH]; simpl; [reflexivity |].
  now rewrite upper_char_idem, IH.
Qed.

Lemma upper_app (a b : string) : upper (a +:+ b) = upper a +:+ upper b.
Proof. induction a as [| c a IH]; rewrite ?append_cons, ?append_nil_l; simpl; [reflexivity | now rewrite IH]. Qed.

Lemma length_upper (s : string) : String.length (upper s) = String.length s.
Proof. induction s as [| c s IH]; simpl; [reflexivity | now rewrite IH]. Qed.

Lemma upper_fixed (p : ascii → bool) (s : string) :
  (∀ c, p c = true → upper_char c = c) →
  all_in p s = true → upper s = s.
Proof.
  intros Hp. induction s as [| c s IH]; simpl; [reflexivity |].
  intros H. apply andb_true_iff in H as [Hc Hs].
  now rewrite (Hp c Hc), IH.
Qed.

Lemma span_spec (p : ascii → bool) (s a b : string) :
  span p s = (a, b) → s = a +:+ b ∧ all_in p a = true ∧ stops p b.
Proof.
  revert a b. induction s as [| c s IH]; simpl; intros a b.
  - intros [= <- <-]. simpl. auto.
  - destruct (p c) eqn:Hc.
    + destruct (span p s) as [a' b'] eqn:E. intros [= <- <-].
      destruct (IH a' b' eq_refl) as (-> & Ha & Hb). simpl. rewrite Hc. auto.
    + intros [= <- <-]. simpl. auto.
Qed.

Lemma span_app (p : ascii → bool) (a b : string) :
  all_in p a = true → stops p b → span p (a +:+ b) = (a, b).
Proof.
  induction a as [| c a IH]; rewrite ?append_cons, ?append_nil_l; simpl; intros Ha Hb.
  - destruct b as [| c b]; simpl in *; [reflexivity | now rewrite Hb].
  - apply andb_true_iff in Ha as [Hc Ha]. now rewrite Hc, IH.
Qed.

Lemma all_in_app (p : ascii → bool) (a b : string) :
  all_in p (a +:+ b) = all_in p a && all_in p b.
Proof.
  induction a as [| c a IH]; rewrite ?append_cons, ?append_nil_l; simpl; [reflexivity |].
  now rewrite IH, andb_assoc.
Qed.

Lemma length_app_string (a b : string) :
  String.length (a +:+ b) = (String.length a + String.length b)%nat.
Proof. induction a as [| c a IH]; rewrite ?append_cons, ?append_nil_l; simpl; [reflexivity | now rewrite IH]. Qed.

Lemma app_assoc_string (a b c : string) : (a +:+ b) +:+ c = a +:+ (b +:+ c).
Proof. induction a as [| x a IH]; rewrite ?append_cons, ?append_nil_l; simpl; [reflexivity | now rewrite IH]. Qed.

Lemma app_empty_r (a : string) : a +:+ "" = a.
Proof. induction a as [| x a IH]; rewrite ?append_cons, ?append_nil_l; simpl; [reflexivity | now rewrite IH]. Qed.

(** *** Decimal digits *)

Lemma all_digits_string_of_uint (d : Decimal.uint) :
  all_in is_digit (NilEmpty.string_of_uint d) = true.
Proof. induction d; simpl; auto. Qed.

Lemma all_digits_zeros (k : nat) : all_in is_digit (zeros k) = true.
Proof. induction k; simpl; auto. Qed.

Lemma uint_of_zeros (k : nat) (s : string) :
  NilEmpty.uint_of_string (zeros k +:+ s)
  = Nat.iter k Decimal.D0 <$> NilEmpty.uint_of_string s.
Proof.
  induction k as [| k IH]; simpl; rewrite ?append_cons, ?append_nil_l; simpl.
  - now destruct (NilEmpty.uint_of_string s).
  - rewrite IH. now destruct (NilEmpty.uint_of_string s).
Qed.

Lemma of_uint_iter_D0 (k : nat) (d : Decimal.uint) :
  N.of_uint (Nat.iter k Decimal.D0 d) = N.of_uint d.
Proof. induction k as [| k IH]; simpl; rewrite ?append_cons, ?append_nil_l; simpl; [reflexivity | exact IH]. Qed.


Lemma digits_of_uint (n : Z) :
  ∃ d, d ≠ Decimal.Nil ∧ digits_of n = NilEmpty.string_of_uint d
       ∧ N.of_uint d = Z.to_N n.
Proof.
  unfold digits_of. set (m := Z.to_N n).
  pose proof (DecimalN.Unsigned.of_to m) as H.
  destruct (N.to_uint m) as [| | | | | | | | | |] eqn:E;
    try (eexists; split; [| split; [reflexivity | exact H]]; discriminate).
  exists (Decimal.D0 Decimal.Nil). split; [discriminate |].
  split; [reflexivity | exact H].
Qed.

Lemma digits_of_all_digits (n : Z) : all_in is_digit (digits_of n) = true.
Proof.
  destruct (digits_of_uint n) as (d & _ & -> & _).
  apply all_digits_string_of_uint.
Qed.

Lemma digits_of_nonempty (n : Z) : digits_of n ≠ "".
Proof.
  destruct (digits_of_uint n) as (d & Hd & -> & _).
  destruct d; simpl; congruence.
Qed.

Lemma int_of_padded_digits (k : nat) (n : Z) :
  0 ≤ n → int_of_digits (zeros k +:+ digits_of n) = n.
Proof.
  intros Hn. unfold int_of_digits. rewrite uint_of_zeros.
  destruct (digits_of_uint n) as (d & _ & -> & Hd).
  rewrite NilEmpty.usu. simpl. rewrite of_uint_iter_D0, Hd. lia.
Qed.

Lemma int_of_digits_nonneg (s : string) : 0 ≤ int_of_digits s.
Proof. unfold int_of_digits. destruct (NilEmpty.uint_of_string s); lia. Qed.

(** *** Parsing and generating codes *)

Lemma digits_stop_letters (f : string) :
  f ≠ "" → all_in is_digit f = true → stops is_upper f.
Proof.
  destruct f as [| c f]; [congruence |]. simpl. intros _ H.
  apply andb_true_iff in H as [Hc _]. now apply digit_not_upper.
Qed.

Lemma parse_letters_digits (p ds rest : string) :
  p ≠ "" → all_in is_upper p = true →
  ds ≠ "" → all_in is_digit ds = true → stops is_digit rest →
  (∀ code, upper code = p +:+ ds +:+ rest →
     parse_location_code code = Valid (p, int_of_digits ds)).
Proof.
  intros Hp Hup Hds Hdig Hrest code Hcode. unfold parse_location_code.
  rewrite Hcode.
  rewrite (span_app is_upper p (ds +:+ rest) Hup).
  - rewrite (span_app is_digit ds rest Hdig Hrest).
    destruct p; [congruence |]. destruct ds; [congruence |]. reflexivity.
  - destruct ds as [| c ds]; [congruence |]. rewrite append_cons. simpl.
    simpl in Hdig. apply andb_true_iff in Hdig as [Hc _].
    now apply digit_not_upper.
Qed.

Lemma parse_valid_inv (code p : string) (n : Z) :
  parse_location_code code = Valid (p, n) →
  ∃ ds rest,
    upper code = p +:+ ds +:+ rest
    ∧ p ≠ "" ∧ all_in is_upper p = true
    ∧ ds ≠ "" ∧ all_in is_digit ds = true ∧ stops is_digit rest
    ∧ n = int_of_digits ds.
Proof.
  unfold parse_location_code.
  destruct (span is_upper (upper code)) as [p' r] eqn:E1.
  destruct (span is_digit r) as [ds rest] eqn:E2.
  apply span_spec in E1 as (Hc & Hp & _).
  apply span_spec in E2 as (-> & Hd & Hr).
  destruct p' as [| c p']; [discriminate |].
  destruct ds as [| c' ds]; [discriminate |].
  intros [= <- <-]. exists (String c' ds), rest. repeat split; auto; discriminate.
Qed.

Lemma format_0d_padded (w n : Z) :
  0 ≤ n → ∃ k, format_0d w n = zeros k +:+ digits_of n.
Proof.
  intros Hn. unfold format_0d. destruct (Z.ltb_spec n 0); [lia |]. eauto.
Qed.

Lemma parse_formatted (p : string) (w n : Z) :
  p ≠ "" → all_in is_upper p = true → 0 ≤ n →
  parse_location_code (p +:+ format_0d w n) = Valid (p, n).
Proof.
  intros Hp Hup Hn. destruct (format_0d_padded w n Hn) as (k & ->).
  set (f := zeros k +:+ digits_of n).
  assert (Hf : all_in is_digit f = true).
  { subst f. now rewrite all_in_app, all_digits_zeros, digits_of_all_digits. }
  assert (Hne : f ≠ "").
  { subst f. pose proof (digits_of_nonempty n) as H.
    destruct k; simpl zeros;
      [now rewrite append_nil_l | rewrite append_cons; discriminate]. }
  rewrite <- (int_of_padded_digits k n Hn). fold f.
  apply (parse_letters_digits p f "" Hp Hup Hne Hf I).
  rewrite upper_app, app_empty_r.
  rewrite (upper_fixed is_upper p upper_char_upper Hup).
  now rewrite (upper_fixed is_digit f upper_char_digit Hf).
Qed.

Lemma is_valid_upper (code : string) : is_valid (upper code) = is_valid code.
Proof.
  unfold is_valid, parse_location_code. rewrite upper_idem.
  destruct (span is_upper (upper code)) as [p r].
  destruct (span is_digit r) as [ds rest].
  destruct p; [reflexivity |]. now destruct ds.
Qed.

Lemma parse_valid_prefix (code p : string) (n : Z) :
  parse_location_code code = Valid (p, n) →
  p ≠ "" ∧ all_in is_upper p = true ∧ 0 ≤ n.
Proof.
  intros H. apply parse_valid_inv in H
    as (ds & rest & Hc & Hp & Hup & Hds & Hdig & Hrest & ->).
  split; [exact Hp |]. split; [exact Hup |]. apply int_of_digits_nonneg.
Qed.


Lemma generate_location_codes_inv (start_code end_code : string)
    (codes : list string) :
  generate_location_codes start_code end_code = Valid codes →
  ∃ p a b,
    parse_location_code start_code = Valid (p, a)
    ∧ parse_location_code end_code = Valid (p, b)
    ∧ a ≤ b
    ∧ codes = (fun num => p +:+ format_0d (str_len start_code - str_len p) num)
                <$> seqZ a (b + 1 - a).
Proof.
  unfold generate_location_codes.
  destruct (parse_location_code start_code) as [[p a] | e]; [| discriminate].
  destruct (parse_location_code end_code) as [[p' b] | e]; [| discriminate].
  destruct (String.eqb_spec p p') as [<- | Hne]; [| discriminate]. simpl.
  destruct (Z.ltb_spec b a); [discriminate |].
  intros [= <-]. exists p, a, b. auto.
Qed.


(** X3. The codes that [generate_location_codes] returns are pairwise
    distinct. *)
Theorem generated_codes_distinct (start_code end_code : string)
    (codes : list string) :
  generate_location_codes start_code end_code = Valid codes → NoDup codes.
Proof.
  intros H. apply generate_location_codes_inv in H
    as (p & a & b & Hs & He & Hab & ->).
  destruct (parse_valid_prefix _ _ _ Hs) as (Hp & Hup & Ha).
  apply NoDup_fmap_2_strong; [| apply NoDup_seqZ].
  intros x y Hx Hy Heq.
  apply elem_of_seqZ in Hx, Hy.
  assert (Hpx := parse_formatted p (str_len start_code - str_len p) x Hp Hup ltac:(lia)).
  assert (Hpy := parse_formatted p (str_len start_code - str_len p) y Hp Hup ltac:(lia)).
  rewrite Heq in Hpx. congruence.
Qed.





(** *** Validating lists of codes *)

(** X5. [validate_location_codes] is idempotent: every code it returns
    is valid and upper-case already, so that validating its result again
    changes nothing. *)
Theorem validate_location_codes_idempotent (codes : list string) :
  validate_location_codes (validate_location_codes codes)
  = validate_location_codes codes
  ∧ Forall (fun code => is_valid code = true ∧ upper code = code)
           (validate_location_codes codes).
Proof.
  unfold validate_location_codes.
  induction codes as [| code codes [IH1 IH2]]; simpl; [split; constructor |].
  destruct (is_valid code) eqn:Hv; simpl; [| split; assumption].
  rewrite is_valid_upper, Hv, upper_idem. simpl. split; [now f_equal |].
  constructor; [| exact IH2]. now rewrite is_valid_upper, upper_idem.
Qed.

(** X6. The loop of [load_location_codes_from_file] is
    [validate_location_codes] on the stripped lines that are neither
    empty nor comments. *)
Theorem load_location_codes_is_validate (lines : list string) :
  load_location_codes_from_lines lines
  = validate_location_codes
      (filter (fun line => line ≠ "" ∧ starts_with_hash line = false)
              (str_strip <$> lines)).
Proof.
  unfold load_location_codes_from_lines, validate_location_codes.
  induction lines as [| raw lines IH]; [reflexivity |].
  cbn [omap list_omap fmap list_fmap]. rewrite IH. clear IH.
  set (line := str_strip raw).
  destruct (String.eqb_spec line "") as [E | E]; cbn [orb].
  - rewrite filter_cons_False by (intros [H _]; contradiction). reflexivity.
  - destruct (starts_with_hash line) eqn:Hh.
    + rewrite filter_cons_False by (intros [_ H]; rewrite Hh in H; discriminate).
      reflexivity.
    + rewrite filter_cons_True by auto. cbn [omap list_omap].
      now destruct (is_valid line).
Qed.

End CodeStrings.

(** ** File names of status artifacts *)

Import Names.

Section FileNames.

Lemma match_prefix_spec (pat : pattern) (s m rest : string) :
  match_prefix pat s = Some (m, rest) →
  s = m +:+ rest ∧ String.length m = length pat.
Proof.
  revert s m rest. induction pat as [| p pat IH]; intros s m rest; simpl.
  - intros [= <- <-]. auto.
  - destruct s as [| c s]; [discriminate |].
    destruct (p c); [| discriminate].
    destruct (match_prefix pat s) as [[m' rest'] |] eqn:E; [| discriminate].
    intros [= <- <-]. destruct (IH _ _ _ E) as [-> Hl].
    rewrite append_cons. simpl. auto.
Qed.

Lemma match_prefix_extend (pat : pattern) (m rest : string) :
  match_prefix pat m = Some (m, EmptyString) →
  match_prefix pat (m +:+ rest) = Some (m, rest).
Proof.
  revert m. induction pat as [| p pat IH]; intros m; simpl.
  - intros [= <-]. now rewrite append_nil_l.
  - destruct m as [| c m]; [discriminate |].
    rewrite append_cons. destruct (p c); [| discriminate].
    destruct (match_prefix pat m) as [[m' rest'] |] eqn:E; [| discriminate].
    intros [= Hm Hr]. subst m' rest'. now rewrite (IH m E).
Qed.

Lemma match_prefix_app (p1 p2 : pattern) (s : string) :
  match_prefix (p1 ++ p2) s
  = match match_prefix p1 s with
    | Some (m1, r1) =>
        match match_prefix p2 r1 with
        | Some (m2, r2) => Some (m1 +:+ m2, r2)
        | None => None
        end
    | None => None
    end.
Proof.
  revert s. induction p1 as [| p p1 IH]; intros s; simpl.
  - destruct (match_prefix p2 s) as [[m2 r2] |]; [| reflexivity].
    now rewrite append_nil_l.
  - destruct s as [| c s]; [reflexivity |].
    destruct (p c); [| reflexivity]. rewrite IH.
    destruct (match_prefix p1 s) as [[m1 r1] |]; [| reflexivity].
    destruct (match_prefix p2 r1) as [[m2 r2] |]; reflexivity.
Qed.

Lemma substring_prefix (a b : string) :
  substring 0 (String.length a) (a +:+ b) = a.
Proof.
  induction a as [| c a IH]; rewrite ?append_cons, ?append_nil_l; simpl.
  - now destruct b.
  - now rewrite IH.
Qed.

Lemma last_char_app (a b : string) :
  b ≠ "" → last_char (a +:+ b) = last_char b.
Proof.
  intros Hb. induction a as [| c a IH]; rewrite ?append_cons, ?append_nil_l;
    [reflexivity |].
  simpl. rewrite IH. destruct (a +:+ b) eqn:E; [| reflexivity].
  destruct a; [rewrite append_nil_l in E; congruence | discriminate].
Qed.

Lemma match_prefix_cons (p : ascii → bool) (pat : pattern) (c : ascii) (s : string) :
  match_prefix (p :: pat) (String c s)
  = if p c then
      match match_prefix pat s with
      | Some (m, rest) => Some (String c m, rest)
      | None => None
      end
    else None.
Proof. reflexivity. Qed.

Lemma status_tail_of_timestamp (t rest : string) :
  is_timestamp t →
  match_prefix ([lit "-"] ++ timestamp ++ lits ".json")
               ("-" +:+ t +:+ ".json" +:+ rest)
  = Some ("-" +:+ t +:+ ".json", rest).
Proof.
  intros Ht.
  change ([lit "-"] ++ timestamp ++ lits ".json")
    with (lit "-" :: (timestamp ++ lits ".json")).
  change ("-" +:+ t +:+ ".json" +:+ rest)
    with (String "-" (t +:+ ".json" +:+ rest)).
  change ("-" +:+ t +:+ ".json") with (String "-" (t +:+ ".json")).
  rewrite match_prefix_cons.
  change (lit "-" "-") with true. cbv iota.
  rewrite match_prefix_app, (match_prefix_extend timestamp t _ Ht).
  rewrite (match_prefix_extend (lits ".json") ".json" rest eq_refl).
  reflexivity.
Qed.

Lemma timestamp_length (t : string) :
  is_timestamp t → String.length t = length timestamp.
Proof. intros Ht. now apply match_prefix_spec in Ht as [_ H]. Qed.

Lemma extract_request_time_here (s t : string) :
  request_time_here s = Some t → extract_request_time s = Some t.
Proof. intros H. destruct s; cbn [extract_request_time]; now rewrite H. Qed.

Lemma extract_request_time_skip (c : ascii) (s : string) :
  request_time_here (String c s) = None →
  extract_request_time (String c s) = extract_request_time s.
Proof. intros H. cbn [extract_request_time]. now rewrite H. Qed.

Lemma status_tail_request_time (s : string) :
  status_tail_here s = true → ∃ t, request_time_here s = Some t.
Proof.
  unfold status_tail_here, request_time_here.
  destruct (match_prefix _ s) as [[m tail] |]; [| discriminate].
  intros ->. eauto.
Qed.

Lemma request_time_status_tail (s t : string) :
  request_time_here s = Some t → status_tail_here s = true.
Proof.
  unfold status_tail_here, request_time_here.
  destruct (match_prefix _ s) as [[m tail] |]; [| discriminate].
  now destruct (at_end tail).
Qed.

Lemma some_then_split (cls : ascii → bool) (k : string → bool) (s : string) :
  some_then cls k s = true →
  ∃ pre s', s = pre +:+ s' ∧ pre ≠ "" ∧ all_in cls pre = true ∧ k s' = true.
Proof.
  induction s as [| c s IH]; simpl; [discriminate |].
  intros [Hc [H | H]%orb_prop]%andb_prop.
  - exists (String c ""), s. simpl. rewrite Hc. auto.
  - destruct (IH H) as (pre & s' & -> & _ & Hp & Hk).
    exists (String c pre), s'. simpl. rewrite Hc, Hp. auto.
Qed.

Lemma status_tail_starts_with_hyphen (s : string) :
  status_tail_here s = true → ∃ s', s = String "-" s'.
Proof.
  unfold status_tail_here.
  change ([lit "-"] ++ timestamp ++ lits ".json")
    with (lit "-" :: (timestamp ++ lits ".json")).
  destruct s as [| c s]; [discriminate |].
  rewrite match_prefix_cons. unfold lit at 1.
  destruct (Ascii.eqb_spec "-" c) as [<- |]; [eauto | discriminate].
Qed.

Lemma no_hyphen_app (a b : string) :
  no_hyphen (a +:+ b) = no_hyphen a && no_hyphen b.
Proof. apply all_in_app. Qed.

Lemma some_then_needs_hyphen (cls : ascii → bool) (s : string) :
  no_hyphen s = true → some_then cls status_tail_here s = false.
Proof.
  induction s as [| c s IH]; [reflexivity |].
  simpl. intros [Hc Hs]%andb_prop.
  rewrite (IH Hs), orb_false_r.
  destruct (status_tail_here s) eqn:E; [| apply andb_false_r].
  apply status_tail_starts_with_hyphen in E as [s' ->]. discriminate.
Qed.

Lemma no_hyphen_not_status (name : string) :
  no_hyphen name = true → is_status_file_name name = false.
Proof.
  intros H. unfold is_status_file_name.
  destruct (match_prefix _ name) as [[m rest] |] eqn:E; [| reflexivity].
  apply match_prefix_spec in E as [-> _].
  rewrite no_hyphen_app in H. apply andb_prop in H as [_ H].
  now apply some_then_needs_hyphen.
Qed.

Lemma alnum_no_hyphen (s : string) :
  all_in is_alnum s = true → no_hyphen s = true.
Proof.
  unfold no_hyphen. induction s as [| c s IH]; [reflexivity |].
  simpl. intros [Hc Hs]%andb_prop. rewrite (IH Hs), andb_true_r.
  destruct (Ascii.eqb_spec c "-") as [-> |]; [discriminate | reflexivity].
Qed.

Lemma match_prefix_self (pat : pattern) (s m rest : string) :
  match_prefix pat s = Some (m, rest) → match_prefix pat m = Some (m, "").
Proof.
  revert s m rest. induction pat as [| p pat IH]; intros s m rest; simpl.
  - now intros [= <- <-].
  - destruct s as [| c s]; [discriminate |].
    destruct (p c) eqn:Hc; [| discriminate].
    destruct (match_prefix pat s) as [[m' rest'] |] eqn:E; [| discriminate].
    intros [= <- <-]. now rewrite Hc, (IH _ _ _ E).
Qed.

Lemma match_prefix_lits (x s m rest : string) :
  match_prefix (lits x) s = Some (m, rest) → m = x.
Proof.
  revert s m rest. induction x as [| c x IH]; intros s m rest.
  - now intros [= <- <-].
  - change (lits (String c x)) with (lit c :: lits x).
    destruct s as [| c' s]; [discriminate |].
    rewrite match_prefix_cons. unfold lit at 1.
    destruct (Ascii.eqb_spec c c') as [<- |]; [| discriminate].
    destruct (match_prefix (lits x) s) as [[m' rest'] |] eqn:E; [| discriminate].
    intros [= <- <-]. now rewrite (IH _ _ _ E).
Qed.

Lemma status_tail_inv (s m tail : string) :
  match_prefix ([lit "-"] ++ timestamp ++ lits ".json") s = Some (m, tail) →
  ∃ t, is_timestamp t ∧ m = "-" +:+ t +:+ ".json".
Proof.
  change ([lit "-"] ++ timestamp ++ lits ".json")
    with (lit "-" :: (timestamp ++ lits ".json")).
  destruct s as [| c s]; [discriminate |].
  rewrite match_prefix_cons, match_prefix_app. unfold lit at 1.
  destruct (Ascii.eqb_spec "-" c) as [<- |]; [| discriminate].
  destruct (match_prefix timestamp s) as [[t r1] |] eqn:Et; [| discriminate].
  destruct (match_prefix (lits ".json") r1) as [[j r2] |] eqn:Ej;
    [| discriminate].
  intros [= <- <-]. exists t. split.
  - exact (match_prefix_self _ _ _ _ Et).
  - now rewrite (match_prefix_lits _ _ _ _ Ej).
Qed.

Lemma request_time_here_tail (t ft : string) :
  is_timestamp t → at_end ft = true →
  request_time_here ("-" +:+ t +:+ ".json" +:+ ft) = Some t.
Proof.
  intros Ht Hft. unfold request_time_here.
  rewrite (status_tail_of_timestamp t ft Ht), Hft.
  f_equal.
  change (substring 1 (length timestamp) ("-" +:+ t +:+ ".json"))
    with (substring 0 (length timestamp) (t +:+ ".json")).
  rewrite <- (timestamp_length t Ht). apply substring_prefix.
Qed.

Lemma at_end_cases (ft : string) :
  at_end ft = true → ft = "" ∨ ft = String "010" "".
Proof.
  destruct ft as [| c [| c' ft]]; simpl; [auto | | discriminate].
  intros ->%Ascii.eqb_eq. auto.
Qed.

Lemma request_time_here_early (pre t ft : string) :
  is_timestamp t → at_end ft = true → pre ≠ "" →
  request_time_here (pre +:+ "-" +:+ t +:+ ".json" +:+ ft) = None.
Proof.
  intros Ht Hft Hpre. unfold request_time_here.
  destruct (match_prefix _ _) as [[m tail] |] eqn:Em; [| reflexivity].
  destruct (at_end tail) eqn:Ee; [exfalso | reflexivity].
  apply match_prefix_spec in Em as [Heq Hlen].
  change (length _) with 31%nat in Hlen.
  assert (Hl := f_equal String.length Heq).
  rewrite !length_app_string, (timestamp_length t Ht), Hlen in Hl.
  change (length timestamp) with 25%nat in Hl. simpl in Hl.
  assert (String.length pre ≠ 0)%nat by (destruct pre; [congruence | simpl; lia]).
  apply at_end_cases in Ee as [-> | ->]; simpl in Hl; [lia |].
  assert (ft = "") as -> by (destruct ft; [reflexivity | simpl in Hl; lia]).
  change (".json" +:+ "") with ".json" in Heq.
  rewrite <- !app_assoc_string in Heq.
  apply (f_equal last_char) in Heq.
  rewrite !last_char_app in Heq by discriminate. discriminate.
Qed.

Lemma extract_request_time_tail (pre t ft : string) :
  is_timestamp t → at_end ft = true →
  extract_request_time (pre +:+ "-" +:+ t +:+ ".json" +:+ ft) = Some t.
Proof.
  intros Ht Hft. induction pre as [| c pre IH].
  - rewrite append_nil_l.
    now apply extract_request_time_here, request_time_here_tail.
  - rewrite append_cons, extract_request_time_skip; [exact IH |].
    rewrite <- append_cons. now apply request_time_here_early.
Qed.

(** X7. [extract_request_time] of [parser.py] reads back the request
    time from the name [f"{uln}-{request_time}.json"] under which
    [scrape_machine_status_batch] saves a status artifact, whatever the
    identifier is, as long as the request time has the shape of a
    timestamp. *)
Theorem status_file_name_round_trip (uln t : string) :
  is_timestamp t → extract_request_time (status_file_name uln t) = Some t.
Proof.
  intros Ht. unfold status_file_name.
  change ".json" with (".json" +:+ "").
  now apply extract_request_time_tail.
Qed.

(** X8. A file name that the cleanup pattern of
    [parse_and_cleanup_location_data] selects is the name of a status
    artifact, possibly followed by one newline: an identifier of the shape
    [[A-Z]{2}[A-Z0-9]+], a hyphen, a timestamp and [.json]; and
    [extract_request_time] reads that timestamp from it. *)
Theorem cleanup_selects_status_names (name : string) :
  is_status_file_name name = true →
  ∃ uln t ft,
    uln_shape uln = true ∧ is_timestamp t ∧ at_end ft = true
    ∧ name = status_file_name uln t +:+ ft
    ∧ extract_request_time name = Some t.
Proof.
  unfold is_status_file_name.
  destruct (match_prefix _ name) as [[m rest] |] eqn:Em; [| discriminate].
  intros (pre & s' & -> & Hne & Hpre & Hk)%some_then_split.
  unfold status_tail_here in Hk.
  destruct (match_prefix _ s') as [[m' ft] |] eqn:Em'; [| discriminate].
  destruct (status_tail_inv _ _ _ Em') as (t & Ht & ->).
  apply match_prefix_spec in Em' as [-> _].
  pose proof (match_prefix_self _ _ _ _ Em) as Hm.
  apply match_prefix_spec in Em as [-> _].
  exists (m +:+ pre), t, ft. repeat split; try assumption.
  - unfold uln_shape. rewrite (match_prefix_extend _ _ _ Hm), Hpre.
    destruct pre; [congruence | reflexivity].
  - unfold status_file_name. now rewrite <- !app_assoc_string.
  - rewrite !app_assoc_string, <- (app_assoc_string m pre).
    now apply extract_request_time_tail.
Qed.

Lemma status_tail_here_exact (t : string) :
  is_timestamp t → status_tail_here ("-" +:+ t +:+ ".json") = true.
Proof.
  intros Ht. apply (request_time_status_tail _ t).
  exact (request_time_here_tail t "" Ht eq_refl).
Qed.

Lemma status_tail_here_early (pre t : string) :
  is_timestamp t → pre ≠ "" →
  status_tail_here (pre +:+ "-" +:+ t +:+ ".json") = false.
Proof.
  intros Ht Hpre. destruct (status_tail_here _) eqn:E; [| reflexivity].
  apply status_tail_request_time in E as [t' E].
  assert (H := request_time_here_early pre t "" Ht eq_refl Hpre).
  change (".json" +:+ "") with ".json" in H. congruence.
Qed.

Lemma some_then_before_tail (rest t : string) :
  is_timestamp t →
  some_then is_upper_alnum status_tail_here (rest +:+ "-" +:+ t +:+ ".json")
  = negb (String.eqb rest "") && all_in is_upper_alnum rest.
Proof.
  intros Ht. induction rest as [| c rest IH].
  - reflexivity.
  - rewrite append_cons. cbn [some_then all_in]. rewrite IH.
    change (String.eqb (String c rest) "") with false. cbn [negb andb].
    destruct rest as [| c' rest'].
    + rewrite append_nil_l, (status_tail_here_exact t Ht). reflexivity.
    + rewrite status_tail_here_early by (auto; discriminate). reflexivity.
Qed.

(** X9. Whether the cleanup of [parse_and_cleanup_location_data] selects
    the status artifact [f"{uln}-{request_time}.json"] depends on the
    identifier alone: it does exactly when the identifier is two capital
    letters followed by one or more capital letters or digits. *)
Theorem cleanup_selects_by_uln_shape (uln t : string) :
  is_timestamp t →
  is_status_file_name (status_file_name uln t) = uln_shape uln.
Proof.
  intros Ht. unfold is_status_file_name, uln_shape, status_file_name.
  destruct uln as [| a [| b rest]].
  - reflexivity.
  - rewrite append_cons, append_nil_l.
    change ("-" +:+ t +:+ ".json") with (String "-" (t +:+ ".json")).
    rewrite !match_prefix_cons. simpl. now destruct (is_upper a).
  - rewrite !append_cons, !match_prefix_cons. cbn [match_prefix].
    destruct (is_upper a); [| reflexivity].
    destruct (is_upper b); [| reflexivity].
    now apply some_then_before_tail.
Qed.

Lemma no_hyphen_no_request_time (s : string) :
  no_hyphen s = true → extract_request_time s = None.
Proof.
  assert (Hh : ∀ s', no_hyphen s' = true → request_time_here s' = None).
  { intros s' H. destruct (request_time_here s') as [t |] eqn:E; [| reflexivity].
    apply request_time_status_tail, status_tail_starts_with_hyphen in E as [? ->].
    discriminate. }
  induction s as [| c s IH]; intros H.
  - reflexivity.
  - rewrite extract_request_time_skip by auto.
    apply IH. simpl in H. now apply andb_prop in H as [_ H].
Qed.

(** X10. The location artifact [f"{code}.json"] of a code made of
    letters and digits is never selected by the cleanup, and
    [extract_request_time] finds no request time in its name. *)
Theorem cleanup_keeps_location_artifact (code : string) :
  all_in is_alnum code = true →
  is_status_file_name (location_file_name code) = false
  ∧ extract_request_time (location_file_name code) = None.
Proof.
  intros H%alnum_no_hyphen.
  assert (Hn : no_hyphen (location_file_name code) = true).
  { unfold location_file_name. now rewrite no_hyphen_app, H. }
  split; [now apply no_hyphen_not_status | now apply no_hyphen_no_request_time].
Qed.

End FileNames.

(** ** More theorems at work *)



Lemma existing_locations_characterised_witness :
  get_existing_locations (disk warm_state) ["W000001"] []
  = Ok [("W000001", "AB1234")]
  ∧ NoDup (Py.keys [("W000001", "AB1234")])
  ∧ (∀ c, c ∈ Py.keys [("W000001", "AB1234")]
          ↔ c ∈ ["W000001"]
            ∧ ∃ uln, extract_uln (load_json (disk warm_state) c) = Ok uln)
  ∧ (∀ c uln, (c, uln) ∈ [("W000001", "AB1234")] →
              extract_uln (load_json (disk warm_state) c) = Ok uln).
Proof.
  assert (H : get_existing_locations (disk warm_state) ["W000001"] []
              = Ok [("W000001", "AB1234")]) by reflexivity.
  split; [exact H |].
  exact (existing_locations_characterised _ _ _ H).
Defined.

Lemma run_without_work_witness :
  get_existing_locations (disk failed_only_state) ["W000001"] [] = Ok []
  ∧ (∀ c, c ∈ ["W000001"] → c ∈ default ∅ (failed_file failed_only_state))
  ∧ run_bulk_scraper steady_world ["W000001"] 15 50 3 failed_only_state
    = (Ok tt,
       {| tick := 1; disk := ∅; failed_file := Some {["W000001"]};
          trace := [EvLog LogNoValidLocations] |}).
Proof.
  assert (H1 : get_existing_locations (disk failed_only_state) ["W000001"] []
               = Ok []) by reflexivity.
  assert (H2 : ∀ c, c ∈ ["W000001"] →
                    c ∈ default ∅ (failed_file failed_only_state)).
  { intros c Hc. apply list_elem_of_singleton in Hc as ->.
    now apply elem_of_singleton. }
  split; [exact H1 |]. split; [exact H2 |].
  exact (run_without_work steady_world ["W000001"] 15 50 3 failed_only_state
           H1 H2).
Defined.

Lemma malformed_artifact_stops_run_witness :
  "W000001" ∈ ["W000002"; "W000001"]
  ∧ Py.truthy (load_json (disk malformed_state) "W000001") = true
  ∧ extract_uln (load_json (disk malformed_state) "W000001") = Raise TypeError
  ∧ TypeError ≠ KeyError
  ∧ ∃ e', run_bulk_scraper steady_world ["W000002"; "W000001"] 15 50 3
            malformed_state
          = (Raise e', malformed_state)
          ∧ (e' = TypeError ∨ e' = AttributeError).
Proof.
  assert (H1 : "W000001" ∈ ["W000002"; "W000001"]) by (right; left).
  assert (H2 : Py.truthy (load_json (disk malformed_state) "W000001") = true)
    by reflexivity.
  assert (H3 : extract_uln (load_json (disk malformed_state) "W000001")
               = Raise TypeError) by reflexivity.
  assert (H4 : TypeError ≠ KeyError) by discriminate.
  do 4 (split; [assumption |]).
  exact (malformed_artifact_stops_run steady_world _ 15 50 3 _ _ _ H1 H2 H3 H4).
Defined.




Lemma cached_code_is_never_fetched_witness :
  file_exists (disk warm_state) "W000001"
  ∧ let r := resolve steady_world ["W000001"; "W000002"] 900 50 warm_state in
    (∃ evs, trace r.2 = trace warm_state ++ evs
            ∧ EvRequest (LocationsUrl "W000001") ∉ evs)
    ∧ ∀ locs failed needing start,
        r.1 = Ok (locs, failed, needing, start) →
        "W000001" ∈ Py.keys locs →
        ∃ uln, extract_uln (load_json (disk warm_state) "W000001") = Ok uln.
Proof.
  assert (H : file_exists (disk warm_state) "W000001").
  { eexists. reflexivity. }
  split; [exact H |].
  exact (cached_code_is_never_fetched steady_world "W000001" _ 900 50
           warm_state H).
Defined.



Lemma generated_codes_distinct_witness :
  generate_location_codes "W000098" "w000101"
  = Valid ["W000098"; "W000099"; "W000100"; "W000101"]
  ∧ NoDup ["W000098"; "W000099"; "W000100"; "W000101"].
Proof.
  assert (H : generate_location_codes "W000098" "w000101"
              = Valid ["W000098"; "W000099"; "W000100"; "W000101"])
    by reflexivity.
  split; [exact H |].
  exact (generated_codes_distinct _ _ _ H).
Defined.


Lemma status_file_name_round_trip_witness :
  is_timestamp sample_timestamp
  ∧ extract_request_time (status_file_name "AB1234" sample_timestamp)
    = Some sample_timestamp.
Proof.
  assert (H : is_timestamp sample_timestamp) by reflexivity.
  split; [exact H |].
  exact (status_file_name_round_trip "AB1234" sample_timestamp H).
Defined.

Lemma cleanup_selects_status_names_witness :
  is_status_file_name (status_file_name "AB1234" sample_timestamp) = true
  ∧ ∃ uln t ft,
      uln_shape uln = true ∧ is_timestamp t ∧ at_end ft = true
      ∧ status_file_name "AB1234" sample_timestamp
        = status_file_name uln t +:+ ft
      ∧ extract_request_time (status_file_name "AB1234" sample_timestamp)
        = Some t.
Proof.
  assert (H : is_status_file_name (status_file_name "AB1234" sample_timestamp)
              = true) by reflexivity.
  split; [exact H |].
  exact (cleanup_selects_status_names _ H).
Defined.

Lemma cleanup_selects_by_uln_shape_witness :
  is_timestamp sample_timestamp
  ∧ is_status_file_name (status_file_name "ab1234" sample_timestamp)
    = uln_shape "ab1234".
Proof.
  assert (H : is_timestamp sample_timestamp) by reflexivity.
  split; [exact H |].
  exact (cleanup_selects_by_uln_shape "ab1234" sample_timestamp H).
Defined.

Lemma cleanup_keeps_location_artifact_witness :
  all_in is_alnum "W000001" = true
  ∧ is_status_file_name (location_file_name "W000001") = false
  ∧ extract_request_time (location_file_name "W000001") = None.
Proof.
  assert (H : all_in is_alnum "W000001" = true) by reflexivity.
  split; [exact H |].
  exact (cleanup_keeps_location_artifact "W000001" H).
Defined.
